(** * Futures bot: store, vault, signal distribution and position monitoring

    A shallow embedding of the core of the trading bot
    ([database/models.py], [exchanges/auth_manager.py],
    [exchanges/futures_trader.py], [trading/signal_processor.py],
    [trading/auto_trader.py], [bot/admin_handlers.py],
    [config/settings.py]) together with the properties its specification
    states about it.

    Conventions of the embedding.
    - SQL tables are finite maps from the integer primary key to a record
      of the columns the engines read or write; [TEXT] columns stay
      strings, nullable columns are options.
    - Python [float] amounts are exact rationals ([Qc]); rounding is
      outside the model.
    - [CURRENT_TIMESTAMP] is an explicit [now : Z] argument.
    - Exceptions are the left summand of a result; a [try]/[except
      Exception] is the function [try_catch], which keeps what the body
      did before it raised.
    - [logger] calls, exchange requests and chat messages are recorded as
      structured events in a log that is threaded with the store. *)

From Stdlib Require Import ZArith QArith Qcanon String Ascii.
From stdpp Require Import base gmap list strings numbers sorting.

Local Open Scope Z_scope.
Local Open Scope string_scope.

(** ** Python values and control *)

Module Py.

Inductive Exc :=
| AttributeError (obj attr : string)
| TypeError (what : string)
| ValueError (what : string)
| KeyError (key : string)
| ZeroDivisionError
| InvalidToken
| OSError (what : string)
| ExchangeError (what : string).

Definition Result (A : Type) : Type := Exc + A.

Definition raise {A} (e : Exc) : Result A := inl e.

#[export] Instance result_ret : MRet (sum Exc) := λ A a, inr a.
#[export] Instance result_bind : MBind (sum Exc) := λ A B k m,
  match m with
  | inl e => inl e
  | inr a => k a
  end.

(** Truth value of an optional float: [None] and [0.0] are false. *)
Definition truthy (x : option Qc) : bool :=
  match x with
  | None => false
  | Some q => negb (Qc_eq_bool q 0)
  end.

(** Truth value of an optional string or bytes: [None] and the empty
    value are false. *)
Definition truthy_str (x : option string) : bool :=
  match x with
  | None | Some "" => false
  | Some _ => true
  end.

(** [str.upper] on the ASCII range. *)
Definition upper_ascii (c : ascii) : ascii :=
  let n := N_of_ascii c in
  if ((97 <=? n) && (n <=? 122))%N then ascii_of_N (n - 32) else c.

Fixpoint upper (s : string) : string :=
  match s with
  | EmptyString => EmptyString
  | String c r => String (upper_ascii c) (upper r)
  end.

End Py.

Import Py.

(** ** The store ([database/models.py]) *)

Module Models.

Record SignalRow := {
  sg_symbol : string;
  sg_signal_type : string;
  sg_entry_price : Qc;
  sg_stop_loss : option Qc;
  sg_take_profit : option Qc;
  sg_leverage : option Z;
  sg_position_size_percent : option Qc;
  sg_status : string;
  sg_is_processed : bool;
  sg_expires_at : option Z;
  sg_created_by : Z;
  sg_created_at : Z
}.

Record TradeRow := {
  tr_signal_id : Z;
  tr_user_id : Z;
  tr_exchange_name : string;
  tr_symbol : string;
  tr_side : string;
  tr_quantity : Qc;
  tr_entry_price : Qc;
  tr_current_price : option Qc;
  tr_pnl : option Qc;
  tr_status : string;
  tr_order_id : option string;
  tr_executed_at : Z;
  tr_closed_at : option Z
}.

Record UserRow := {
  us_telegram_id : Z;
  us_username : option string;
  us_first_name : option string
}.

Record SubscriptionRow := {
  sb_user_id : Z;
  sb_is_subscribed : bool;
  sb_auto_trade : bool;
  sb_max_position_size : Qc
}.

Record ExchangeRow := {
  ex_user_id : Z;
  ex_exchange_name : string;
  ex_api_key_encrypted : string;
  ex_api_secret_encrypted : string;
  ex_passphrase_encrypted : option string;
  ex_is_active : bool;
  ex_auto_trade : option bool;
  ex_leverage : option Z;
  ex_position_size_percent : option Qc
}.

Record Store := {
  users : gmap Z UserRow;
  subscriptions : gmap Z SubscriptionRow;
  exchanges : gmap Z ExchangeRow;
  signals : gmap Z SignalRow;
  trade_executions : gmap Z TradeRow
}.

Definition set_signals (f : gmap Z SignalRow → gmap Z SignalRow) (st : Store) : Store :=
  {| users := users st; subscriptions := subscriptions st;
     exchanges := exchanges st; signals := f (signals st);
     trade_executions := trade_executions st |}.

Definition set_trades (f : gmap Z TradeRow → gmap Z TradeRow) (st : Store) : Store :=
  {| users := users st; subscriptions := subscriptions st;
     exchanges := exchanges st; signals := signals st;
     trade_executions := f (trade_executions st) |}.

(** Rows of [SELECT] results, as the dictionaries the model classes build. *)

Record UserDict := {
  ud_id : Z;
  ud_telegram_id : Z;
  ud_username : option string;
  ud_first_name : option string;
  ud_auto_trade : bool;
  ud_max_position_size : Qc
}.

Record ExchangeDict := {
  ed_id : Z;
  ed_exchange_name : string;
  ed_api_key_encrypted : string;
  ed_api_secret_encrypted : string;
  ed_passphrase_encrypted : option string;
  ed_is_active : bool;
  ed_auto_trade : option bool;
  ed_leverage : option Z;
  ed_position_size_percent : option Qc
}.

Record SignalDict := {
  sd_id : Z;
  sd_symbol : string;
  sd_signal_type : string;
  sd_entry_price : Qc;
  sd_stop_loss : option Qc;
  sd_take_profit : option Qc;
  sd_leverage : option Z;
  sd_position_size_percent : option Qc;
  sd_created_by : Z;
  sd_created_at : Z;
  sd_action : string
}.

Record TradeDict := {
  td_id : Z;
  td_signal_id : Z;
  td_user_id : Z;
  td_exchange_name : string;
  td_symbol : string;
  td_side : string;
  td_quantity : Qc;
  td_entry_price : Qc;
  td_current_price : option Qc;
  td_pnl : option Qc;
  td_order_id : option string;
  td_executed_at : Z;
  td_stop_loss : option Qc;
  td_take_profit : option Qc
}.

#[export] Instance UserDict_eq_dec : EqDecision UserDict.
Proof. solve_decision. Defined.

(** [cursor.lastrowid] of an [INSERT] into a table with an
    [INTEGER PRIMARY KEY]: one more than the largest key. *)
Definition next_rowid {A} (m : gmap Z A) : Z :=
  1 + foldr Z.max 0 ((map_to_list m).*1).

(** *** [UserModel] *)

(** [get_subscribed_users]: users joined with their subscriptions and
    exchanges, [WHERE s.is_subscribed = 1 AND e.is_active = 1], distinct. *)
Definition has_active_exchange (st : Store) (uid : Z) : bool :=
  bool_decide (Exists (λ ke, ex_user_id ke.2 = uid ∧ ex_is_active ke.2 = true)
                 (map_to_list (exchanges st))).

Definition get_subscribed_users (st : Store) : list UserDict :=
  remove_dups
    (flat_map (λ ku : Z * UserRow,
       omap (λ ks : Z * SubscriptionRow,
          if bool_decide (sb_user_id ks.2 = ku.1) && sb_is_subscribed ks.2
             && has_active_exchange st ku.1
          then Some {| ud_id := ku.1; ud_telegram_id := us_telegram_id ku.2;
                       ud_username := us_username ku.2;
                       ud_first_name := us_first_name ku.2;
                       ud_auto_trade := sb_auto_trade ks.2;
                       ud_max_position_size := sb_max_position_size ks.2 |}
          else None)
         (map_to_list (subscriptions st)))
       (map_to_list (users st))).

(** *** [ExchangeModel] *)

Definition exchange_dict (ke : Z * ExchangeRow) : ExchangeDict :=
  {| ed_id := ke.1; ed_exchange_name := ex_exchange_name ke.2;
     ed_api_key_encrypted := ex_api_key_encrypted ke.2;
     ed_api_secret_encrypted := ex_api_secret_encrypted ke.2;
     ed_passphrase_encrypted := ex_passphrase_encrypted ke.2;
     ed_is_active := ex_is_active ke.2;
     ed_auto_trade := ex_auto_trade ke.2;
     ed_leverage := ex_leverage ke.2;
     ed_position_size_percent := ex_position_size_percent ke.2 |}.

(** [get_user_exchanges]: [WHERE user_id = ? AND is_active = 1]. *)
Definition get_user_exchanges (st : Store) (user_id : Z) : list ExchangeDict :=
  exchange_dict <$>
    filter (λ ke, ex_user_id ke.2 = user_id ∧ ex_is_active ke.2 = true)
      (map_to_list (exchanges st)).

(** *** [SignalModel] *)

Definition signal_dict (ks : Z * SignalRow) : SignalDict :=
  {| sd_id := ks.1; sd_symbol := sg_symbol ks.2;
     sd_signal_type := sg_signal_type ks.2;
     sd_entry_price := sg_entry_price ks.2;
     sd_stop_loss := sg_stop_loss ks.2;
     sd_take_profit := sg_take_profit ks.2;
     sd_leverage := sg_leverage ks.2;
     sd_position_size_percent := sg_position_size_percent ks.2;
     sd_created_by := sg_created_by ks.2;
     sd_created_at := sg_created_at ks.2;
     sd_action := sg_signal_type ks.2 |}.

(** [expires_at > CURRENT_TIMESTAMP]; a [NULL] deadline never compares. *)
Definition unexpired (now : Z) (r : SignalRow) : Prop :=
  match sg_expires_at r with
  | Some t => (now < t)%Z
  | None => False
  end.

#[export] Instance unexpired_dec now r : Decision (unexpired now r).
Proof. unfold unexpired. destruct (sg_expires_at r); apply _. Defined.

Definition is_pending (now : Z) (r : SignalRow) : Prop :=
  sg_status r = "pending" ∧ unexpired now r.

Definition created_asc (a b : SignalDict) : Prop :=
  (sd_created_at a ≤ sd_created_at b)%Z.

#[export] Instance created_asc_dec : RelDecision created_asc.
Proof. intros a b. unfold created_asc. apply _. Defined.

(** [get_pending_signals]: [WHERE status = 'pending' AND expires_at >
    CURRENT_TIMESTAMP ORDER BY created_at ASC]. *)
Definition get_pending_signals (now : Z) (st : Store) : list SignalDict :=
  merge_sort created_asc
    (signal_dict <$> filter (λ ks, is_pending now ks.2) (map_to_list (signals st))).

Definition with_status (s : string) (r : SignalRow) : SignalRow :=
  {| sg_symbol := sg_symbol r; sg_signal_type := sg_signal_type r;
     sg_entry_price := sg_entry_price r; sg_stop_loss := sg_stop_loss r;
     sg_take_profit := sg_take_profit r; sg_leverage := sg_leverage r;
     sg_position_size_percent := sg_position_size_percent r;
     sg_status := s; sg_is_processed := sg_is_processed r;
     sg_expires_at := sg_expires_at r; sg_created_by := sg_created_by r;
     sg_created_at := sg_created_at r |}.

(** [mark_signal_processed] (the second definition in the class, which is
    the one Python keeps): [UPDATE signals SET status = 'processed' WHERE
    id = ?]. *)
Definition mark_signal_processed (signal_id : Z) (st : Store) : Store :=
  set_signals (alter (with_status "processed") signal_id) st.

(** *** [TradeModel] *)

Record ActiveTradeDict := {
  at_id : Z;
  at_signal_id : Z;
  at_user_id : Z;
  at_exchange_name : string;
  at_symbol : string;
  at_side : string;
  at_quantity : Qc;
  at_entry_price : Qc;
  at_order_id : option string;
  at_executed_at : Z
}.

Definition active_trade_dict (kt : Z * TradeRow) : ActiveTradeDict :=
  {| at_id := kt.1; at_signal_id := tr_signal_id kt.2;
     at_user_id := tr_user_id kt.2; at_exchange_name := tr_exchange_name kt.2;
     at_symbol := tr_symbol kt.2; at_side := tr_side kt.2;
     at_quantity := tr_quantity kt.2; at_entry_price := tr_entry_price kt.2;
     at_order_id := tr_order_id kt.2; at_executed_at := tr_executed_at kt.2 |}.

Definition is_open (kt : Z * TradeRow) : Prop := tr_status kt.2 = "open".

Definition active_desc (a b : ActiveTradeDict) : Prop :=
  (at_executed_at b ≤ at_executed_at a)%Z.

#[export] Instance active_desc_dec : RelDecision active_desc.
Proof. intros a b. unfold active_desc. apply _. Defined.

(** [get_active_trades]: [WHERE status = 'open' ORDER BY executed_at DESC]. *)
Definition get_active_trades (st : Store) : list ActiveTradeDict :=
  merge_sort active_desc
    (active_trade_dict <$> filter is_open (map_to_list (trade_executions st))).

(** One row of [trade_executions t JOIN signals s ON t.signal_id = s.id]:
    the stop-loss and take-profit levels are those of the originating
    signal; a trade whose signal row is missing has no row in the join. *)
Definition joined (trade_id : Z) (t : TradeRow) (s : SignalRow) : TradeDict :=
  {| td_id := trade_id; td_signal_id := tr_signal_id t;
     td_user_id := tr_user_id t;
     td_exchange_name := tr_exchange_name t;
     td_symbol := tr_symbol t; td_side := tr_side t;
     td_quantity := tr_quantity t;
     td_entry_price := tr_entry_price t;
     td_current_price := tr_current_price t;
     td_pnl := tr_pnl t; td_order_id := tr_order_id t;
     td_executed_at := tr_executed_at t;
     td_stop_loss := sg_stop_loss s;
     td_take_profit := sg_take_profit s |}.

Definition trade_dict (st : Store) (kt : Z * TradeRow) : option TradeDict :=
  joined kt.1 kt.2 <$> signals st !! tr_signal_id kt.2.

Definition executed_desc (a b : TradeDict) : Prop :=
  (td_executed_at b ≤ td_executed_at a)%Z.

#[export] Instance executed_desc_dec : RelDecision executed_desc.
Proof. intros a b. unfold executed_desc. apply _. Defined.

(** [get_open_trades]: the join above, [WHERE t.status = 'open' ORDER BY
    t.executed_at DESC]. *)
Definition get_open_trades (st : Store) : list TradeDict :=
  merge_sort executed_desc
    (omap (trade_dict st) (filter is_open (map_to_list (trade_executions st)))).

Definition with_pnl (pnl current_price : Qc) (r : TradeRow) : TradeRow :=
  {| tr_signal_id := tr_signal_id r; tr_user_id := tr_user_id r;
     tr_exchange_name := tr_exchange_name r; tr_symbol := tr_symbol r;
     tr_side := tr_side r; tr_quantity := tr_quantity r;
     tr_entry_price := tr_entry_price r;
     tr_current_price := Some current_price; tr_pnl := Some pnl;
     tr_status := tr_status r; tr_order_id := tr_order_id r;
     tr_executed_at := tr_executed_at r; tr_closed_at := tr_closed_at r |}.

(** [update_trade_pnl]: [UPDATE trade_executions SET pnl = ?,
    current_price = ? WHERE id = ?]. *)
Definition update_trade_pnl (trade_id : Z) (pnl current_price : Qc) (st : Store) : Store :=
  set_trades (alter (with_pnl pnl current_price) trade_id) st.

Definition closed_at_price (now : Z) (close_price final_pnl : Qc) (r : TradeRow) : TradeRow :=
  {| tr_signal_id := tr_signal_id r; tr_user_id := tr_user_id r;
     tr_exchange_name := tr_exchange_name r; tr_symbol := tr_symbol r;
     tr_side := tr_side r; tr_quantity := tr_quantity r;
     tr_entry_price := tr_entry_price r;
     tr_current_price := Some close_price; tr_pnl := Some final_pnl;
     tr_status := "closed"; tr_order_id := tr_order_id r;
     tr_executed_at := tr_executed_at r; tr_closed_at := Some now |}.

(** [close_trade]: [UPDATE trade_executions SET status = 'closed',
    current_price = ?, pnl = ?, closed_at = CURRENT_TIMESTAMP WHERE id = ?].
    The [reason] argument is not part of the statement. *)
Definition close_trade (now : Z) (trade_id : Z) (close_price final_pnl : Qc)
    (reason : string) (st : Store) : Store :=
  set_trades (alter (closed_at_price now close_price final_pnl) trade_id) st.



Definition action_side (action : string) : string :=
  if bool_decide (upper action ∈ ["LONG"; "BUY"]) then "BUY" else "SELL".

(** [create_trade]: [INSERT INTO trade_executions (...) SELECT ...,
    e.exchange_name, ... FROM exchanges e WHERE e.id = ?]; the remaining
    columns take their defaults. Nothing is inserted when the exchange row
    does not exist. *)
Definition create_trade (now : Z) (user_id exchange_id signal_id : Z)
    (symbol action : string) (entry_price quantity : Qc)
    (stop_loss take_profit : option Qc) (leverage : option Z) (st : Store) : Store :=
  match exchanges st !! exchange_id with
  | Some e =>
      set_trades (λ t, <[ next_rowid t :=
        {| tr_signal_id := signal_id; tr_user_id := user_id;
           tr_exchange_name := ex_exchange_name e; tr_symbol := symbol;
           tr_side := action_side action; tr_quantity := quantity;
           tr_entry_price := entry_price; tr_current_price := None;
           tr_pnl := Some 0%Qc; tr_status := "open"; tr_order_id := None;
           tr_executed_at := now; tr_closed_at := None |} ]> t) st
  | None => st
  end.

End Models.

Import Models.

Arguments close_trade : simpl never.
Arguments Models.update_trade_pnl : simpl never.
Arguments mark_signal_processed : simpl never.
Arguments create_trade : simpl never.
Arguments get_open_trades : simpl never.
Arguments get_active_trades : simpl never.
Arguments get_pending_signals : simpl never.
Arguments get_subscribed_users : simpl never.
Arguments get_user_exchanges : simpl never.

(** ** Effects: the store, the log and a state-and-error monad *)

Inductive Message :=
| Initiating
| NoActivePositions
| ClosureCompleted (closed_count failed_count total : nat)
| ClosureError.

Inductive Event :=
| LogError (msg : string) (subject : option Z) (e : Exc)
| LogInfo (msg : string) (subject : option Z)
| Request (venue op symbol : string)
| ClosePositionCalled (trade_id : Z)
| EditMessage (m : Message).

Record World := {
  store : Store;
  log : list Event
}.

Definition M (A : Type) : Type := World → Result A * World.

#[export] Instance M_ret : MRet M := λ A a w, (inr a, w).
#[export] Instance M_bind : MBind M := λ A B k m w,
  match m w with
  | (inl e, w') => (inl e, w')
  | (inr a, w') => k a w'
  end.

Definition throw {A} (e : Exc) : M A := λ w, (inl e, w).

Definition lift {A} (r : Result A) : M A := λ w, (r, w).

Definition emit (ev : Event) : M unit :=
  λ w, (inr (), {| store := store w; log := log w ++ [ev] |}).

Definition gets {A} (f : Store → A) : M A := λ w, (inr (f (store w)), w).

Definition modify (f : Store → Store) : M unit :=
  λ w, (inr (), {| store := f (store w); log := log w |}).

(** [try: body except Exception as e: handler e]; what the body did before
    it raised stays done. *)
Definition try_catch {A} (body : M A) (handler : Exc → M A) : M A :=
  λ w, match body w with
       | (inl e, w') => handler e w'
       | (inr a, w') => (inr a, w')
       end.

(** [for x in l: body x] *)
Fixpoint for_each {A} (l : list A) (body : A → M unit) : M unit :=
  match l with
  | [] => mret ()
  | x :: r => body x ≫= λ _, for_each r body
  end.

Definition exec {A} (m : M A) (w : World) : World := (m w).2.



(** ** The credential vault ([exchanges/auth_manager.py]) *)

Module Vault.

(** The [cryptography.fernet.Fernet] object built from the derived key.
    [encrypt] draws a fresh initialisation vector and timestamp at every
    call (the first argument); [decrypt] answers [None] where the library
    raises [InvalidToken]. The two laws are the library's contract: a
    token decrypts to the message it was made from, and a token is never
    the empty byte string. Strings are their UTF-8 bytes, so [str.encode]
    and [bytes.decode] are the identity. *)
Class Fernet := {
  encrypt : Z → string → string;
  decrypt : string → option string;
  decrypt_encrypt : ∀ iv m, decrypt (encrypt iv m) = Some m;
  encrypt_nonempty : ∀ iv m, encrypt iv m ≠ ""
}.

Definition fernet_decrypt `{Fernet} (token : string) : M string :=
  match decrypt token with
  | Some m => mret m
  | None => throw InvalidToken
  end.

(** [encrypt_credentials]; [ivs] is the randomness of the three
    [fernet.encrypt] calls. *)
Definition encrypt_credentials `{Fernet} (ivs : Z * Z * Z)
    (api_key api_secret passphrase : string) : M (string * string * string) :=
  try_catch
    (let encrypted_key := encrypt ivs.1.1 api_key in
     let encrypted_secret := encrypt ivs.1.2 api_secret in
     let encrypted_passphrase :=
       if truthy_str (Some passphrase) then encrypt ivs.2 passphrase else "" in
     mret (encrypted_key, encrypted_secret, encrypted_passphrase))
    (λ e, emit (LogError "Encryption error" None e) ≫= λ _, throw e).

(** [decrypt_credentials]; the stored passphrase column may be [NULL]. *)
Definition decrypt_credentials `{Fernet} (encrypted_key encrypted_secret : string)
    (encrypted_passphrase : option string) : M (string * string * string) :=
  try_catch
    (api_key ← fernet_decrypt encrypted_key;
     api_secret ← fernet_decrypt encrypted_secret;
     passphrase ← (if truthy_str encrypted_passphrase
                   then fernet_decrypt (default "" encrypted_passphrase)
                   else mret "");
     mret (api_key, api_secret, passphrase))
    (λ e, emit (LogError "Decryption error" None e) ≫= λ _, throw e).

(** Attribute lookup [auth_manager.db] on an [ExchangeAuthManager]: the
    instance has what [__init__] assigns, the class has its methods, there
    is no base class and no [__getattr__]; any other name raises
    [AttributeError]. Where the attribute exists its value is the database
    handle, of which there is one. *)
Definition instance_attributes : list string := ["fernet"; "auth_sessions"].

Definition class_attributes : list string :=
  ["__init__"; "_setup_encryption"; "encrypt_credentials"; "decrypt_credentials";
   "generate_oauth_url"; "_generate_state_token"; "validate_state_token";
   "cleanup_expired_sessions"; "get_oauth_token"].

Definition getattr_db : M () :=
  if bool_decide ("db" ∈ (instance_attributes ++ class_attributes)%list) then mret ()
  else throw (AttributeError "ExchangeAuthManager" "db").

End Vault.

Import Vault.

(** ** The exchange adapter ([exchanges/futures_trader.py]) *)

Module FuturesTrader.

Record Client := {
  cl_venue : string;
  cl_apiKey : string;
  cl_secret : string;
  cl_password : option string
}.

Record Order := {
  or_id : string;
  or_price : option Qc
}.

(** Responses of the venues, reached through [ccxt]. A venue answers by a
    function of the request: what it quotes does not move during the one
    cycle a property speaks of. A balance response maps a currency to its
    account, an account maps ['free'] and the like to an amount or [None].
    For the methods of a client the caller passes in, the response is the
    outcome of the awaited call; [fetch_ticker] is what the call on the
    client [get_current_price] builds gave, before it is awaited. *)
Record Ccxt := {
  fetch_balance : Client → Result (gmap string (gmap string (option Qc)));
  set_leverage_api : Client → Z → string → Result ();
  create_market_order : Client → string → string → Qc → Result Order;
  create_order : Client → string → string → Qc → Qc → Result ();
  create_limit_order : Client → string → string → Qc → Qc → Result ();
  fetch_ticker : string → string → Result (option Qc)
}.

Inductive TradeResult :=
| TradeOk (order_id : string) (entry_price quantity : Qc) (side : string)
| TradeFailed (error : Exc).

Inductive CloseResult :=
| CloseOk (close_price pnl : Qc)
| CloseFailed (error : Exc).

Definition supported_venues : list string :=
  ["binance"; "bybit"; "okx"; "bitget"; "mexc"].

(** Attribute lookup on the class [Config] ([config/settings.py]): the class
    has the attributes its body assigns and the method [validate]; it has
    no base class and no metaclass, so any other name raises
    [AttributeError]. *)
Definition config_attributes : list string :=
  ["BOT_TOKEN"; "ADMIN_ID"; "ENCRYPTION_KEY"; "WEBHOOK_URL"; "WEBHOOK_PORT";
   "WEBHOOK_PATH"; "OAUTH_CALLBACK_URL"; "SUPPORTED_EXCHANGES"; "DEFAULT_LEVERAGE";
   "MAX_LEVERAGE"; "DEFAULT_POSITION_SIZE_PERCENT"; "MAX_POSITION_SIZE_PERCENT";
   "USE_STOP_LOSS"; "USE_TAKE_PROFIT"; "DB_PATH"; "LOG_LEVEL"; "LOG_FORMAT";
   "LOG_FILE"; "SIGNAL_EXPIRY_HOURS"; "NOTIFY_ON_TRADE"; "NOTIFY_ON_ERROR";
   "validate"].

Definition getattr_Config (name : string) : M () :=
  if bool_decide (name ∈ config_attributes) then mret ()
  else throw (AttributeError "Config" name).

(** [get_exchange_client]: for each of the five venues the argument of the
    [ccxt] constructor is a dictionary display one of whose entries is
    [Config.TESTNET_MODE], evaluated before the constructor is called. *)
Definition get_exchange_client (exchange_name api_key api_secret passphrase : string)
    : M Client :=
  try_catch
    (if bool_decide (exchange_name ∈ supported_venues) then
       _ ← getattr_Config "TESTNET_MODE";
       mret {| cl_venue := exchange_name; cl_apiKey := api_key;
               cl_secret := api_secret;
               cl_password :=
                 if bool_decide (exchange_name ∈ ["okx"; "bitget"])
                 then Some passphrase else None |}
     else throw (ValueError "Unsupported exchange"))
    (λ e, emit (LogError "Error creating exchange client" None e) ≫= λ _, throw e).

(** [get_balance]: the free USDT amount, [0.0] when the response has no
    USDT account, and [0.0] again when anything raised. *)
Definition get_balance (cx : Ccxt) (exchange : Client) : M (option Qc) :=
  try_catch
    (_ ← emit (Request (cl_venue exchange) "fetch_balance" "");
     balance ← lift (fetch_balance cx exchange);
     match balance !! "USDT" with
     | Some account =>
         match account !! "free" with
         | Some amount => mret amount
         | None => throw (KeyError "free")
         end
     | None => mret (Some 0%Qc)
     end)
    (λ e, emit (LogError "Error getting balance" None e) ≫= λ _, mret (Some 0%Qc)).

Definition set_leverage (cx : Ccxt) (exchange : Client) (symbol : string) (leverage : Z)
    : M () :=
  try_catch
    (_ ← emit (Request (cl_venue exchange) "set_leverage" symbol);
     lift (set_leverage_api cx exchange leverage symbol))
    (λ e, emit (LogError "Error setting leverage" None e)).

Definition opposite (side : string) : string :=
  if bool_decide (side = "buy") then "sell" else "buy".

Definition set_stop_loss (cx : Ccxt) (exchange : Client) (symbol side : string)
    (quantity stop_price : Qc) : M () :=
  try_catch
    (_ ← emit (Request (cl_venue exchange) "create_order" symbol);
     lift (create_order cx exchange symbol (opposite side) quantity stop_price))
    (λ e, emit (LogError "Error setting stop loss" None e)).

Definition set_take_profit (cx : Ccxt) (exchange : Client) (symbol side : string)
    (quantity take_profit_price : Qc) : M () :=
  try_catch
    (_ ← emit (Request (cl_venue exchange) "create_limit_order" symbol);
     lift (create_limit_order cx exchange symbol (opposite side) quantity take_profit_price))
    (λ e, emit (LogError "Error setting take profit" None e)).

(** Arithmetic on values that may be [None]: an operand [None] raises
    [TypeError], a zero divisor [ZeroDivisionError]. *)
Definition number (x : option Qc) : M Qc :=
  match x with
  | Some q => mret q
  | None => throw (TypeError "unsupported operand type(s): NoneType")
  end.

Definition divide (a b : Qc) : M Qc :=
  if Qc_eq_bool b 0 then throw ZeroDivisionError else mret (a / b)%Qc.

Definition order_side (action : string) : string :=
  if bool_decide (upper action ∈ ["BUY"; "LONG"]) then "buy" else "sell".

Definition execute_trade `{Fernet} (cx : Ccxt) (exchange_config : ExchangeDict)
    (signal : SignalDict) (user : UserDict) : M TradeResult :=
  try_catch
    ('(api_key, api_secret, passphrase) ←
        decrypt_credentials (ed_api_key_encrypted exchange_config)
          (ed_api_secret_encrypted exchange_config)
          (ed_passphrase_encrypted exchange_config);
     exchange ← get_exchange_client (ed_exchange_name exchange_config)
                  api_key api_secret passphrase;
     balance ← get_balance cx exchange;
     let position_size_percent := ed_position_size_percent exchange_config in
     let leverage := sd_leverage signal in
     percent ← number position_size_percent;
     balance ← number balance;
     leverage ← number ((λ z, Q2Qc (inject_Z z)) <$> leverage);
     let position_value := (balance * (percent / Q2Qc 100) * leverage)%Qc in
     quantity ← divide position_value (sd_entry_price signal);
     _ ← set_leverage cx exchange (sd_symbol signal) (default 0%Z (sd_leverage signal));
     let side := order_side (sd_action signal) in
     _ ← emit (Request (cl_venue exchange) "create_market_order" (sd_symbol signal));
     order ← lift (create_market_order cx exchange (sd_symbol signal) side quantity);
     _ ← (if truthy (sd_stop_loss signal)
          then set_stop_loss cx exchange (sd_symbol signal) side quantity
                 (default 0%Qc (sd_stop_loss signal))
          else mret ());
     _ ← (if truthy (sd_take_profit signal)
          then set_take_profit cx exchange (sd_symbol signal) side quantity
                 (default 0%Qc (sd_take_profit signal))
          else mret ());
     mret (TradeOk (or_id order)
             (if truthy (or_price order) then default 0%Qc (or_price order)
              else sd_entry_price signal)
             quantity side))
    (λ e, emit (LogError "Error executing trade" None e) ≫= λ _, mret (TradeFailed e)).

(** [await] applied to what a call on a synchronous [ccxt] client gave (the
    module imports [ccxt], not [ccxt.async_support]): the call has run; an
    exception it raised propagates, and a value it returned is not
    awaitable, which raises [TypeError]. *)
Definition await_sync {A} (answer : Result A) : Result A :=
  match answer with
  | inl e => inl e
  | inr _ => raise (TypeError "object dict can't be used in 'await' expression")
  end.

(** [get_current_price]: builds a client without credentials for a known
    venue and awaits its [fetch_ticker]; [None] for an unknown venue and
    when anything raised. *)
Definition get_current_price (cx : Ccxt) (exchange_name symbol : string) : M (option Qc) :=
  try_catch
    (if bool_decide (exchange_name ∈ supported_venues) then
       _ ← emit (Request exchange_name "fetch_ticker" symbol);
       lift (await_sync (fetch_ticker cx exchange_name symbol))
     else mret None)
    (λ e, emit (LogError "Error getting current price" None e) ≫= λ _, mret None).

(** [close_position]: the body of the [try] is the [return] of a constant
    dictionary; the entry into the method is recorded in the log so that
    invocations can be observed. *)
Definition close_position (trade_id : Z) : M CloseResult :=
  try_catch
    (_ ← emit (ClosePositionCalled trade_id);
     mret (CloseOk 0 0))
    (λ e, emit (LogError "Error closing position" None e) ≫= λ _, mret (CloseFailed e)).

Definition is_success (r : TradeResult) : bool :=
  match r with
  | TradeOk _ _ _ _ => true
  | TradeFailed _ => false
  end.

Definition auto_trade_on (exchange_config : ExchangeDict) : bool :=
  match ed_auto_trade exchange_config with
  | Some b => b
  | None => false
  end.

(** [execute_signal_trade]: the exchange model is built from
    [self.auth_manager.db] before anything else happens. *)
Definition execute_signal_trade `{Fernet} (cx : Ccxt) (user : UserDict)
    (signal : SignalDict) : M () :=
  try_catch
    (_ ← getattr_db;
     user_exchanges ← gets (λ st, get_user_exchanges st (ud_id user));
     for_each user_exchanges (λ exchange_config,
       if auto_trade_on exchange_config then
         result ← execute_trade cx exchange_config signal user;
         if is_success result
         then emit (LogInfo "Signal executed for user" (Some (ud_id user)))
         else mret ()
       else mret ()))
    (λ e, emit (LogError "Error executing signal trade" None e)).

End FuturesTrader.

(** ** Signal distribution ([trading/signal_processor.py]) *)

Module SignalProcessor.

Definition execute_for_user `{Fernet} (cx : FuturesTrader.Ccxt) (signal : SignalDict)
    (user : UserDict) : M () :=
  try_catch
    (FuturesTrader.execute_signal_trade cx user signal)
    (λ e, emit (LogError "Error executing signal for user" (Some (ud_id user)) e)).

Definition execute_signal `{Fernet} (cx : FuturesTrader.Ccxt) (signal : SignalDict) : M () :=
  try_catch
    (subscribers ← gets get_subscribed_users;
     _ ← for_each subscribers (execute_for_user cx signal);
     modify (mark_signal_processed (sd_id signal)))
    (λ e, emit (LogError "Error executing signal" (Some (sd_id signal)) e)).

Definition process_pending_signals `{Fernet} (cx : FuturesTrader.Ccxt) (now : Z) : M () :=
  try_catch
    (pending_signals ← gets (get_pending_signals now);
     for_each pending_signals (execute_signal cx))
    (λ e, emit (LogError "Error processing signals" None e)).

(** *** Overlapping polling cycles

    One polling cycle as a machine that yields between its accesses to
    the store: reading the pending signals, reading the subscribers of the
    signal at hand, one user's execution, and the final status write. *)
Inductive Cycle :=
| Polling
| Iterating (pending_signals : list SignalDict)
| Executing (signal : SignalDict) (subscribers : list UserDict)
    (pending_signals : list SignalDict)
| Finished.

Definition cycle_step `{Fernet} (cx : FuturesTrader.Ccxt) (now : Z) (c : Cycle) (w : World)
    : option (Cycle * World) :=
  match c with
  | Polling => Some (Iterating (get_pending_signals now (store w)), w)
  | Iterating [] => Some (Finished, w)
  | Iterating (signal :: rest) =>
      Some (Executing signal (get_subscribed_users (store w)) rest, w)
  | Executing signal (user :: users) rest =>
      Some (Executing signal users rest, exec (execute_for_user cx signal user) w)
  | Executing signal [] rest =>
      Some (Iterating rest, exec (modify (mark_signal_processed (sd_id signal))) w)
  | Finished => None
  end.

(** Two cycles over one store; either may move. *)
Record System := {
  first : Cycle;
  second : Cycle;
  world : World
}.

Inductive sys_step `{Fernet} (cx : FuturesTrader.Ccxt) (now : Z) : System → System → Prop :=
| step_first c1 c2 w c1' w' :
    cycle_step cx now c1 w = Some (c1', w') →
    sys_step cx now {| first := c1; second := c2; world := w |}
                    {| first := c1'; second := c2; world := w' |}
| step_second c1 c2 w c2' w' :
    cycle_step cx now c2 w = Some (c2', w') →
    sys_step cx now {| first := c1; second := c2; world := w |}
                    {| first := c1; second := c2'; world := w' |}.

Definition sys_steps `{Fernet} (cx : FuturesTrader.Ccxt) (now : Z) : System → System → Prop :=
  rtc (sys_step cx now).

(** The signal a cycle is executing, if any. *)
Definition executing (c : Cycle) : option Z :=
  match c with
  | Executing signal _ _ => Some (sd_id signal)
  | _ => None
  end.

Definition status_of (w : World) (signal_id : Z) : option string :=
  sg_status <$> signals (store w) !! signal_id.

End SignalProcessor.

(** ** Position monitoring ([trading/auto_trader.py]) *)

Module AutoTrader.

Definition is_long (side : string) : bool := bool_decide (upper side = "LONG").
Definition is_short (side : string) : bool := bool_decide (upper side = "SHORT").

(** The profit-and-loss expression of [update_trade_pnl]. *)
Definition pnl_of (side : string) (entry_price current_price quantity : Qc) : Qc :=
  if is_long side then ((current_price - entry_price) * quantity)%Qc
  else ((entry_price - current_price) * quantity)%Qc.

Definition update_trade_pnl (cx : FuturesTrader.Ccxt) (trade : TradeDict) : M () :=
  try_catch
    (current_price ← FuturesTrader.get_current_price cx
                       (td_exchange_name trade) (td_symbol trade);
     if truthy current_price then
       let price := default 0%Qc current_price in
       let pnl := pnl_of (td_side trade) (td_entry_price trade) price
                    (td_quantity trade) in
       modify (Models.update_trade_pnl (td_id trade) pnl price)
     else mret ())
    (λ e, emit (LogError "Error updating trade P&L" None e)).

Definition monitor_positions (cx : FuturesTrader.Ccxt) : M () :=
  try_catch
    (open_trades ← gets get_open_trades;
     for_each open_trades (update_trade_pnl cx))
    (λ e, emit (LogError "Error monitoring positions" None e)).

Definition close_position (now : Z) (trade : TradeDict) (reason : string) : M () :=
  try_catch
    (result ← FuturesTrader.close_position (td_id trade);
     match result with
     | FuturesTrader.CloseOk close_price pnl =>
         _ ← modify (close_trade now (td_id trade) close_price pnl reason);
         emit (LogInfo ("Position closed: " ++ reason) (Some (td_id trade)))
     | FuturesTrader.CloseFailed _ => mret ()
     end)
    (λ e, emit (LogError "Error closing position" None e)).

(** The decision of [check_stop_losses] for a trade whose stop-loss is
    set, at the fetched price. *)
Definition stop_loss_hit (side : string) (current_price stop_loss : Qc) : bool :=
  (is_long side && bool_decide (current_price ≤ stop_loss)%Qc)
  || (is_short side && bool_decide (stop_loss ≤ current_price)%Qc).

(** The decision of [check_take_profits]. *)
Definition take_profit_hit (side : string) (current_price take_profit : Qc) : bool :=
  (is_long side && bool_decide (take_profit ≤ current_price)%Qc)
  || (is_short side && bool_decide (current_price ≤ take_profit)%Qc).

Definition check_stop_loss (cx : FuturesTrader.Ccxt) (now : Z) (trade : TradeDict) : M () :=
  if negb (truthy (td_stop_loss trade)) then mret ()
  else
    current_price ← FuturesTrader.get_current_price cx
                      (td_exchange_name trade) (td_symbol trade);
    if truthy current_price then
      let should_close :=
        stop_loss_hit (td_side trade) (default 0%Qc current_price)
          (default 0%Qc (td_stop_loss trade)) in
      if should_close then close_position now trade "STOP_LOSS" else mret ()
    else mret ().

Definition check_stop_losses (cx : FuturesTrader.Ccxt) (now : Z) : M () :=
  try_catch
    (open_trades ← gets get_open_trades;
     for_each open_trades (check_stop_loss cx now))
    (λ e, emit (LogError "Error checking stop losses" None e)).

Definition check_take_profit (cx : FuturesTrader.Ccxt) (now : Z) (trade : TradeDict) : M () :=
  if negb (truthy (td_take_profit trade)) then mret ()
  else
    current_price ← FuturesTrader.get_current_price cx
                      (td_exchange_name trade) (td_symbol trade);
    if truthy current_price then
      let should_close :=
        take_profit_hit (td_side trade) (default 0%Qc current_price)
          (default 0%Qc (td_take_profit trade)) in
      if should_close then close_position now trade "TAKE_PROFIT" else mret ()
    else mret ().

Definition check_take_profits (cx : FuturesTrader.Ccxt) (now : Z) : M () :=
  try_catch
    (open_trades ← gets get_open_trades;
     for_each open_trades (check_take_profit cx now))
    (λ e, emit (LogError "Error checking take profits" None e)).

(** One iteration of [start_trading_engine]. *)
Definition trading_cycle (cx : FuturesTrader.Ccxt) (now : Z) : M () :=
  _ ← monitor_positions cx;
  _ ← check_stop_losses cx now;
  check_take_profits cx now.

(** [AutoTrader.execute_signal_trade]: the variant that records the trade;
    nothing in the repository calls it. *)
Definition execute_signal_trade `{Fernet} (cx : FuturesTrader.Ccxt) (now : Z)
    (user : UserDict) (signal : SignalDict) : M () :=
  try_catch
    (user_exchanges ← gets (λ st, get_user_exchanges st (ud_id user));
     for_each user_exchanges (λ exchange,
       if negb (FuturesTrader.auto_trade_on exchange) then mret ()
       else
         result ← FuturesTrader.execute_trade cx exchange signal user;
         match result with
         | FuturesTrader.TradeOk _ entry_price quantity _ =>
             _ ← modify (create_trade now (ud_id user) (ed_id exchange)
                           (sd_id signal) (sd_symbol signal) (sd_action signal)
                           entry_price quantity (sd_stop_loss signal)
                           (sd_take_profit signal) (sd_leverage signal));
             emit (LogInfo "Trade executed for user" (Some (ud_id user)))
         | FuturesTrader.TradeFailed _ => mret ()
         end))
    (λ e, emit (LogError "Error executing signal trade" None e)).

End AutoTrader.

(** ** The administrator's emergency close ([bot/admin_handlers.py]) *)

Module AdminHandlers.




End AdminHandlers.

(** ** Configuration ([config/settings.py]) and start-up ([app.py]) *)

Module Settings.

Record Config := {
  BOT_TOKEN : option string;
  ADMIN_ID : Z;
  ENCRYPTION_KEY : string;
  WEBHOOK_PORT : Z;
  DB_PATH : string;
  LOG_FILE : string
}.

(** [os.getenv(key, default)] *)
Definition getenv (env : gmap string string) (key default_value : string) : string :=
  default default_value (env !! key).

Definition digit (c : ascii) : option Z :=
  let n := N_of_ascii c in
  if ((48 <=? n) && (n <=? 57))%N then Some (Z.of_N (n - 48)) else None.

Fixpoint digits (s : string) (acc : Z) : option Z :=
  match s with
  | EmptyString => Some acc
  | String c r => d ← digit c; digits r (10 * acc + d)%Z
  end.

Definition unsigned (s : string) : option Z :=
  match s with
  | EmptyString => None
  | _ => digits s 0
  end.

(** [int(s)] on a string: an optional sign and decimal digits. The
    surrounding blanks and the underscores Python also accepts are left
    out. *)
Definition py_int (s : string) : Result Z :=
  let parsed :=
    match s with
    | String "-" r => Z.opp <$> unsigned r
    | String "+" r => unsigned r
    | _ => unsigned s
    end in
  match parsed with
  | Some z => mret z
  | None => raise (ValueError "invalid literal for int() with base 10")
  end.

(** [int(os.getenv(key, n))] *)
Definition getenv_int (env : gmap string string) (key : string) (default_value : Z)
    : Result Z :=
  match env !! key with
  | Some s => py_int s
  | None => mret default_value
  end.

(** The body of [class Config], evaluated when the module is imported. *)
Definition load (env : gmap string string) : Result Config :=
  admin_id ← getenv_int env "ADMIN_ID" 0;
  webhook_port ← getenv_int env "WEBHOOK_PORT" 8443;
  mret {| BOT_TOKEN := env !! "BOT_TOKEN";
          ADMIN_ID := admin_id;
          ENCRYPTION_KEY := getenv env "ENCRYPTION_KEY" "your-secret-key-here";
          WEBHOOK_PORT := webhook_port;
          DB_PATH := getenv env "DB_PATH" "data/trading_bot.db";
          LOG_FILE := getenv env "LOG_FILE" "logs/trading_bot.log" |}.

(** [Config.validate]; [makedirs path] stands for
    [os.makedirs(os.path.dirname(path), exist_ok=True)] on the machine at
    hand. *)
Definition validate (makedirs : string → Result ()) (cfg : Config) : Result bool :=
  _ ← (if truthy_str (BOT_TOKEN cfg) then mret ()
       else raise (ValueError "BOT_TOKEN is required in .env file"));
  _ ← (if bool_decide (ADMIN_ID cfg = 0%Z)
       then raise (ValueError "ADMIN_ID is required in .env file")
       else mret ());
  _ ← makedirs (DB_PATH cfg);
  _ ← makedirs (LOG_FILE cfg);
  mret true.

(** The head of [main()]: the import of the configuration, then
    [Config.validate()] inside the [try] whose handler logs the failure and
    returns exit code 1; past it the handlers and engines are built, the
    vault from [Config.ENCRYPTION_KEY]. *)
Inductive Startup :=
| ImportFailed (e : Exc)
| Refused (e : Exc) (exit_code : Z)
| Initialising (cfg : Config) (vault_key : string).

Definition main (makedirs : string → Result ()) (env : gmap string string) : Startup :=
  match load env with
  | inl e => ImportFailed e
  | inr cfg =>
      match validate makedirs cfg with
      | inl e => Refused e 1
      | inr _ => Initialising cfg (ENCRYPTION_KEY cfg)
      end
  end.

End Settings.

(** ** Observations on runs *)

Definition logged (l : list Event) (w : World) : World :=
  {| store := store w; log := log w ++ l |}.

(** What [get_current_price] answers and what it leaves in the log, read
    off the awaited answer of the venue's ticker. *)
Definition quoted (cx : FuturesTrader.Ccxt) (venue symbol : string) : option Qc :=
  if bool_decide (venue ∈ FuturesTrader.supported_venues) then
    match FuturesTrader.await_sync (FuturesTrader.fetch_ticker cx venue symbol) with
    | inr price => price
    | inl _ => None
    end
  else None.

Definition quote_events (cx : FuturesTrader.Ccxt) (venue symbol : string) : list Event :=
  if bool_decide (venue ∈ FuturesTrader.supported_venues) then
    Request venue "fetch_ticker" symbol ::
    match FuturesTrader.await_sync (FuturesTrader.fetch_ticker cx venue symbol) with
    | inr _ => []
    | inl e => [LogError "Error getting current price" None e]
    end
  else [].

(** The positions on which the adapter's [close_position] was invoked. *)
Definition adapter_closes (l : list Event) : list Z :=
  omap (λ ev, match ev with
              | ClosePositionCalled i => Some i
              | _ => None
              end) l.

Definition is_request (ev : Event) : bool :=
  match ev with
  | Request _ _ _ => true
  | _ => false
  end.

(** The stop-loss pass closes [trade]: its stop-loss is set, a price came
    back, and the comparison of [check_stop_losses] holds. *)
Definition sl_fires (cx : FuturesTrader.Ccxt) (trade : TradeDict) : bool :=
  truthy (td_stop_loss trade)
  && truthy (quoted cx (td_exchange_name trade) (td_symbol trade))
  && AutoTrader.stop_loss_hit (td_side trade)
       (default 0%Qc (quoted cx (td_exchange_name trade) (td_symbol trade)))
       (default 0%Qc (td_stop_loss trade)).

Definition tp_fires (cx : FuturesTrader.Ccxt) (trade : TradeDict) : bool :=
  truthy (td_take_profit trade)
  && truthy (quoted cx (td_exchange_name trade) (td_symbol trade))
  && AutoTrader.take_profit_hit (td_side trade)
       (default 0%Qc (quoted cx (td_exchange_name trade) (td_symbol trade)))
       (default 0%Qc (td_take_profit trade)).

Definition close_events (trade_id : Z) (reason : string) : list Event :=
  [ClosePositionCalled trade_id;
   LogInfo ("Position closed: " ++ reason) (Some trade_id)].

(** One iteration of a pass over the open trades, as a function on the
    world: the row of the trade is rewritten by [g] where [c] holds, and
    [ev] is appended to the log. *)
Definition pass_step (c : TradeDict → bool) (g : TradeDict → TradeRow → TradeRow)
    (ev : TradeDict → list Event) (w : World) (t : TradeDict) : World :=
  {| store := if c t then set_trades (alter (g t) (td_id t)) (store w) else store w;
     log := log w ++ ev t |}.

Definition sl_events (cx : FuturesTrader.Ccxt) (t : TradeDict) : list Event :=
  (if truthy (td_stop_loss t)
   then quote_events cx (td_exchange_name t) (td_symbol t) else [])
  ++ (if sl_fires cx t then close_events (td_id t) "STOP_LOSS" else []).

Definition tp_events (cx : FuturesTrader.Ccxt) (t : TradeDict) : list Event :=
  (if truthy (td_take_profit t)
   then quote_events cx (td_exchange_name t) (td_symbol t) else [])
  ++ (if tp_fires cx t then close_events (td_id t) "TAKE_PROFIT" else []).

Definition repriced (cx : FuturesTrader.Ccxt) (t : TradeDict) : bool :=
  truthy (quoted cx (td_exchange_name t) (td_symbol t)).

Definition reprice (cx : FuturesTrader.Ccxt) (t : TradeDict) : TradeRow → TradeRow :=
  let price := default 0%Qc (quoted cx (td_exchange_name t) (td_symbol t)) in
  with_pnl (AutoTrader.pnl_of (td_side t) (td_entry_price t) price (td_quantity t))
    price.

Definition world_of (st : Store) : World := {| store := st; log := [] |}.

(** The log entry every call of [FuturesTrader.execute_signal_trade]
    leaves. *)
Definition no_db_attribute : Event :=
  LogError "Error executing signal trade" None
    (AttributeError "ExchangeAuthManager" "db").

(** Two polling cycles about to start on a store. *)
Definition two_cycles (st : Store) : SignalProcessor.System :=
  {| SignalProcessor.first := SignalProcessor.Polling;
     SignalProcessor.second := SignalProcessor.Polling;
     SignalProcessor.world := world_of st |}.




(** ** Scenarios used to exercise the model *)

Module Scenario.

Definition q (n d : Z) : Qc := Q2Qc (n # Z.to_pos d).

Definition trade (signal_id user_id : Z) (venue symbol side : string)
    (quantity entry_price : Qc) (status : string) (executed_at : Z) : TradeRow :=
  {| tr_signal_id := signal_id; tr_user_id := user_id;
     tr_exchange_name := venue; tr_symbol := symbol; tr_side := side;
     tr_quantity := quantity; tr_entry_price := entry_price;
     tr_current_price := None; tr_pnl := Some 0%Qc; tr_status := status;
     tr_order_id := None; tr_executed_at := executed_at; tr_closed_at := None |}.

Definition signal (symbol signal_type : string) (entry_price : Qc)
    (stop_loss take_profit : option Qc) (status : string)
    (expires_at created_at : Z) : SignalRow :=
  {| sg_symbol := symbol; sg_signal_type := signal_type;
     sg_entry_price := entry_price; sg_stop_loss := stop_loss;
     sg_take_profit := take_profit; sg_leverage := Some 10%Z;
     sg_position_size_percent := Some (q 5 1); sg_status := status;
     sg_is_processed := false; sg_expires_at := Some expires_at;
     sg_created_by := 1; sg_created_at := created_at |}.

Definition empty_store : Store :=
  {| users := ∅; subscriptions := ∅; exchanges := ∅; signals := ∅;
     trade_executions := ∅ |}.



(** A venue that quotes [price] for every symbol, holds [balance] free
    USDT and accepts every order. *)
Definition venue (price : option Qc) (balance : Qc) : FuturesTrader.Ccxt :=
  {| FuturesTrader.fetch_balance :=
       λ _, inr {[ "USDT" := {[ "free" := Some balance ]} ]};
     FuturesTrader.set_leverage_api := λ _ _ _, inr ();
     FuturesTrader.create_market_order :=
       λ _ _ _ _, inr {| FuturesTrader.or_id := "1"; FuturesTrader.or_price := None |};
     FuturesTrader.create_order := λ _ _ _ _ _, inr ();
     FuturesTrader.create_limit_order := λ _ _ _ _ _, inr ();
     FuturesTrader.fetch_ticker := λ _ _, inr price |}.

(** A long position of 2 BTC entered at 100 whose signal sets the
    stop-loss at 95 and no take-profit. *)
Definition long_row : TradeRow :=
  trade 1 7 "binance" "BTCUSDT" "long" (q 2 1) (q 100 1) "open" 1.

Definition long_signal : SignalRow :=
  signal "BTCUSDT" "long" (q 100 1) (Some (q 95 1)) None "processed" 100 0.

Definition long_store : Store :=
  set_signals (λ _, {[ 1%Z := long_signal ]})
    (set_trades (λ _, {[ 1%Z := long_row ]}) empty_store).

(** A short position of 2 BTC entered at 100 whose signal sets the
    take-profit at 90 and no stop-loss. *)
Definition short_row : TradeRow :=
  trade 1 7 "binance" "BTCUSDT" "short" (q 2 1) (q 100 1) "open" 1.

Definition short_signal : SignalRow :=
  signal "BTCUSDT" "short" (q 100 1) None (Some (q 90 1)) "processed" 100 0.

Definition short_store : Store :=
  set_signals (λ _, {[ 1%Z := short_signal ]})
    (set_trades (λ _, {[ 1%Z := short_row ]}) empty_store).

(** The status of position 1 and the positions the adapter was asked to
    close, after one monitoring cycle at the quoted [price]. *)
Definition after_cycle (st : Store) (price : Qc) : option string * list Z :=
  let w := exec (AutoTrader.trading_cycle (venue (Some price) 0) 10) (world_of st) in
  (tr_status <$> trade_executions (store w) !! 1, adapter_closes (log w)).

(** A venue whose every request fails. *)
Definition unreachable_venue : FuturesTrader.Ccxt :=
  {| FuturesTrader.fetch_balance := λ _, inl (ExchangeError "network");
     FuturesTrader.set_leverage_api := λ _ _ _, inl (ExchangeError "network");
     FuturesTrader.create_market_order := λ _ _ _ _, inl (ExchangeError "network");
     FuturesTrader.create_order := λ _ _ _ _ _, inl (ExchangeError "network");
     FuturesTrader.create_limit_order := λ _ _ _ _ _, inl (ExchangeError "network");
     FuturesTrader.fetch_ticker := λ _ _, inl (ExchangeError "network") |}.

Definition client : FuturesTrader.Client :=
  {| FuturesTrader.cl_venue := "binance"; FuturesTrader.cl_apiKey := "k";
     FuturesTrader.cl_secret := "s"; FuturesTrader.cl_password := None |}.

(** An environment with the bot token and the administrator set and no
    [ENCRYPTION_KEY]. *)
Definition env_without_key : gmap string string :=
  {[ "BOT_TOKEN" := "123:abc"; "ADMIN_ID" := "42" ]}.

Definition writable : string → Result () := λ _, inr ().

(** A stand-in for the cipher: a token is the message behind a version
    byte. *)
Definition toy_fernet : Fernet :=
  {| encrypt := λ _ m, String "g" m;
     decrypt := λ token, match token with
                         | String "g" m => Some m
                         | _ => None
                         end;
     decrypt_encrypt := λ _ _, eq_refl;
     encrypt_nonempty := λ _ _, ltac:(discriminate) |}.

(** Three subscribed users, each with one active exchange on which
    auto-trading is on; the credentials of user 2 do not decrypt. One
    pending signal: BTCUSDT long, entry 35000, stop-loss 34000, take-profit
    36000, leverage 10, size 5%. *)
Definition user (telegram_id : Z) : UserRow :=
  {| us_telegram_id := telegram_id; us_username := None; us_first_name := None |}.

Definition subscription (user_id : Z) : SubscriptionRow :=
  {| sb_user_id := user_id; sb_is_subscribed := true; sb_auto_trade := true;
     sb_max_position_size := q 5 1 |}.

Definition exchange (user_id : Z) (key secret : string) : ExchangeRow :=
  {| ex_user_id := user_id; ex_exchange_name := "binance";
     ex_api_key_encrypted := key; ex_api_secret_encrypted := secret;
     ex_passphrase_encrypted := Some ""; ex_is_active := true;
     ex_auto_trade := Some true; ex_leverage := Some 10%Z;
     ex_position_size_percent := Some (q 5 1) |}.

Definition btc_signal : SignalRow :=
  signal "BTCUSDT" "long" (q 35000 1) (Some (q 34000 1)) (Some (q 36000 1))
    "pending" 100 0.

Definition three_users : Store :=
  {| users := {[ 1%Z := user 101; 2%Z := user 102; 3%Z := user 103 ]};
     subscriptions := {[ 1%Z := subscription 1; 2%Z := subscription 2;
                         3%Z := subscription 3 ]};
     exchanges := {[ 1%Z := exchange 1 "gkey1" "gsecret1";
                     2%Z := exchange 2 "corrupt" "gsecret2";
                     3%Z := exchange 3 "gkey3" "gsecret3" ]};
     signals := {[ 1%Z := btc_signal ]};
     trade_executions := ∅ |}.

Definition btc_dict : SignalDict := signal_dict (1%Z, btc_signal).

(** The distribution as [SignalProcessor.execute_signal] performs it. *)
Definition distributed : World :=
  exec (@SignalProcessor.execute_signal toy_fernet (venue None (q 1000 1)) btc_dict)
    (world_of three_users).

(** The same users served by [AutoTrader.execute_signal_trade] instead. *)
Definition distributed_recording : World :=
  exec (for_each (get_subscribed_users three_users)
          (λ u, @AutoTrader.execute_signal_trade toy_fernet (venue None (q 1000 1)) 5
                  u btc_dict))
    (world_of three_users).

Definition is_attribute_error (ev : Event) : bool :=
  match ev with
  | LogError _ _ (AttributeError _ _) => true
  | _ => false
  end.

Definition is_decryption_error (ev : Event) : bool :=
  match ev with
  | LogError msg _ InvalidToken => bool_decide (msg = "Decryption error")
  | _ => false
  end.

Definition is_market_order (ev : Event) : bool :=
  match ev with
  | Request _ op _ => bool_decide (op = "create_market_order")
  | _ => false
  end.

Definition attribute_errors (l : list Event) : nat :=
  length (filter is_attribute_error l).

Definition decryption_errors (l : list Event) : nat :=
  length (filter is_decryption_error l).

Definition market_orders (l : list Event) : nat :=
  length (filter is_market_order l).



End Scenario.

(** ** More of the store ([database/models.py]) *)

Module SignalModel.

(** [create_signal]: the [INSERT] names nine columns; [status],
    [is_processed] and [created_at] take the defaults of the schema
    (['active'], [0], [CURRENT_TIMESTAMP]). [expires_at] is computed in
    Python as [datetime.now() + timedelta(hours=expires_hours)], a second
    clock ([local_now]), in seconds here. The creator is passed as an
    integer by the callers. The result is [cursor.lastrowid]. *)
Definition create_signal (now local_now : Z) (symbol signal_type : string)
    (entry_price : Qc) (stop_loss take_profit : option Qc) (leverage : Z)
    (position_size_percent : Qc) (created_by : Z) (expires_hours : Z) (st : Store)
    : Z * Store :=
  let signal_id := next_rowid (signals st) in
  (signal_id,
   set_signals (λ t, <[ signal_id :=
     {| sg_symbol := symbol; sg_signal_type := signal_type;
        sg_entry_price := entry_price; sg_stop_loss := stop_loss;
        sg_take_profit := take_profit; sg_leverage := Some leverage;
        sg_position_size_percent := Some position_size_percent;
        sg_status := "active"; sg_is_processed := false;
        sg_expires_at := Some (local_now + 3600 * expires_hours)%Z;
        sg_created_by := created_by; sg_created_at := now |} ]> t) st).

Record UnprocessedDict := {
  un_id : Z;
  un_symbol : string;
  un_signal_type : string;
  un_entry_price : Qc;
  un_stop_loss : option Qc;
  un_take_profit : option Qc;
  un_leverage : option Z;
  un_position_size_percent : option Qc;
  un_created_by : Z;
  un_created_at : Z
}.

Definition unprocessed_dict (ks : Z * SignalRow) : UnprocessedDict :=
  {| un_id := ks.1; un_symbol := sg_symbol ks.2;
     un_signal_type := sg_signal_type ks.2;
     un_entry_price := sg_entry_price ks.2;
     un_stop_loss := sg_stop_loss ks.2;
     un_take_profit := sg_take_profit ks.2;
     un_leverage := sg_leverage ks.2;
     un_position_size_percent := sg_position_size_percent ks.2;
     un_created_by := sg_created_by ks.2;
     un_created_at := sg_created_at ks.2 |}.

Definition is_unprocessed (now : Z) (r : SignalRow) : Prop :=
  sg_is_processed r = false ∧ sg_status r = "active" ∧ unexpired now r.

Definition unprocessed_asc (a b : UnprocessedDict) : Prop :=
  (un_created_at a ≤ un_created_at b)%Z.

#[export] Instance unprocessed_asc_dec : RelDecision unprocessed_asc.
Proof. intros a b. unfold unprocessed_asc. apply _. Defined.

(** [get_unprocessed_signals]: [WHERE is_processed = 0 AND status =
    'active' AND expires_at > CURRENT_TIMESTAMP ORDER BY created_at ASC]. *)
Definition get_unprocessed_signals (now : Z) (st : Store) : list UnprocessedDict :=
  merge_sort unprocessed_asc
    (unprocessed_dict <$>
       filter (λ ks, is_unprocessed now ks.2) (map_to_list (signals st))).

End SignalModel.

Module ExchangeModel.

Definition set_exchanges (f : gmap Z ExchangeRow → gmap Z ExchangeRow) (st : Store)
    : Store :=
  {| users := users st; subscriptions := subscriptions st;
     exchanges := f (exchanges st); signals := signals st;
     trade_executions := trade_executions st |}.

(** [add_exchange]: the [INSERT] names the user, the venue, the three
    encrypted secrets, the connection type and the leverage; [is_active],
    [auto_trade] and [position_size_percent] take the defaults of the
    schema ([1], [1], [5.0]). The result is [cursor.lastrowid]. *)
Definition add_exchange (user_id : Z) (exchange_name : string)
    (api_key_encrypted api_secret_encrypted passphrase_encrypted : string)
    (connection_type : string) (leverage : Z) (st : Store) : Z * Store :=
  let exchange_id := next_rowid (exchanges st) in
  (exchange_id,
   set_exchanges (λ t, <[ exchange_id :=
     {| ex_user_id := user_id; ex_exchange_name := exchange_name;
        ex_api_key_encrypted := api_key_encrypted;
        ex_api_secret_encrypted := api_secret_encrypted;
        ex_passphrase_encrypted := Some passphrase_encrypted;
        ex_is_active := true; ex_auto_trade := Some true;
        ex_leverage := Some leverage;
        ex_position_size_percent := Some (Q2Qc 5) |} ]> t) st).

End ExchangeModel.

Module UserModel.

Definition set_subscriptions
    (f : gmap Z SubscriptionRow → gmap Z SubscriptionRow) (st : Store) : Store :=
  {| users := users st; subscriptions := f (subscriptions st);
     exchanges := exchanges st; signals := signals st;
     trade_executions := trade_executions st |}.

Definition with_flags (is_subscribed auto_trade : bool) (s : SubscriptionRow)
    : SubscriptionRow :=
  {| sb_user_id := sb_user_id s; sb_is_subscribed := is_subscribed;
     sb_auto_trade := auto_trade;
     sb_max_position_size := sb_max_position_size s |}.

(** [update_subscription]: [UPDATE subscriptions SET is_subscribed = ?,
    auto_trade = ? WHERE user_id = ?], every row of the user. *)
Definition update_subscription (user_id : Z) (is_subscribed auto_trade : bool)
    (st : Store) : Store :=
  set_subscriptions
    (fmap (λ s, if bool_decide (sb_user_id s = user_id)
                then with_flags is_subscribed auto_trade s else s)) st.

End UserModel.

(** ** OAuth state tokens ([exchanges/auth_manager.py]) *)

Module OAuth.

Record StateData := {
  st_user_id : Z;
  st_exchange : string;
  st_timestamp : Z;
  st_nonce : string
}.

(** A value of [auth_sessions]: the state data and the expiry time. *)
Record Session := {
  se_data : StateData;
  se_expires_at : Z
}.

Section tokens.

(** [base64.urlsafe_b64encode(json.dumps(state_data).encode()).decode()] *)
Variable encode : StateData → string.

(** The answers of the venues' token end points, by exchange, code and
    user. *)
Variable exchange_code : string → string → Z → Result string.

(** [_generate_state_token]; [time.time()] is read twice ([now] for the
    timestamp, [now'] for the expiry) and [nonce] is
    [secrets.token_hex(16)]. *)
Definition _generate_state_token (now now' : Z) (nonce : string) (user_id : Z)
    (exchange : string) (auth_sessions : gmap string Session)
    : string * gmap string Session :=
  let state_data := {| st_user_id := user_id; st_exchange := exchange;
                       st_timestamp := now; st_nonce := nonce |} in
  let state_token := encode state_data in
  (state_token,
   <[ state_token := {| se_data := state_data; se_expires_at := now' + 600 |} ]>
     auth_sessions).

Definition validate_state_token (now : Z) (state : string)
    (auth_sessions : gmap string Session) : option Session * gmap string Session :=
  match auth_sessions !! state with
  | None => (None, auth_sessions)
  | Some session_data =>
      if bool_decide (se_expires_at session_data < now)%Z
      then (None, delete state auth_sessions)
      else (Some session_data, auth_sessions)
  end.

(** [cleanup_expired_sessions]: the expired states are collected first and
    popped one by one. *)
Definition cleanup_expired_sessions (now : Z) (auth_sessions : gmap string Session)
    : gmap string Session :=
  let expired_sessions :=
    (filter (λ kv : string * Session, (se_expires_at kv.2 < now)%Z)
       (map_to_list auth_sessions)).*1 in
  foldl (λ sessions state, delete state sessions) auth_sessions expired_sessions.

(** [handle_oauth_callback]: membership is the only check; the [finally]
    pops the state whatever the exchange of the code gave. *)
Definition handle_oauth_callback (code state : string)
    (auth_sessions : gmap string Session) : Result string * gmap string Session :=
  match auth_sessions !! state with
  | None => (raise (ValueError "Invalid or expired state token"), auth_sessions)
  | Some session_data =>
      let exchange := st_exchange (se_data session_data) in
      let user_id := st_user_id (se_data session_data) in
      (if bool_decide (exchange ∈ ["kucoin"; "bybit"; "okx"])
       then exchange_code exchange code user_id
       else raise (ValueError "OAuth not supported"),
       delete state auth_sessions)
  end.

End tokens.

End OAuth.

(** ** Further observations *)

(** A computation that leaves the store as it found it. *)
Definition preserves_store {A} (m : M A) : Prop :=
  ∀ w, store (m w).2 = store w.

(** A computation that returns, whatever it met. *)
Definition never_raises {A} (m : M A) : Prop :=
  ∀ w, ∃ a, (m w).1 = inr a.

(** The exchange requests a computation added to the log. *)
Definition requests_of (l : list Event) : list Event := filter is_request l.

(** What the steps of [execute_trade] answer and leave in the log, read
    off the vault and the venue. *)
Definition decrypted `{Fernet} (exchange_config : ExchangeDict)
    : option (string * string * string) :=
  api_key ← decrypt (ed_api_key_encrypted exchange_config);
  api_secret ← decrypt (ed_api_secret_encrypted exchange_config);
  passphrase ← (if truthy_str (ed_passphrase_encrypted exchange_config)
                then decrypt (default "" (ed_passphrase_encrypted exchange_config))
                else Some "");
  Some (api_key, api_secret, passphrase).

(** The error [get_exchange_client] raises for a venue name. *)
Definition client_error (exchange_name : string) : Exc :=
  if bool_decide (exchange_name ∈ FuturesTrader.supported_venues)
  then AttributeError "Config" "TESTNET_MODE"
  else ValueError "Unsupported exchange".

(** The error [execute_trade] reports for a stored connection, and the
    two entries it leaves in the log: the one of the step that raised and
    its own. *)
Definition trade_error `{Fernet} (exchange_config : ExchangeDict) : Exc :=
  match decrypted exchange_config with
  | None => InvalidToken
  | Some _ => client_error (ed_exchange_name exchange_config)
  end.

Definition trade_events `{Fernet} (exchange_config : ExchangeDict) : list Event :=
  [LogError (match decrypted exchange_config with
             | None => "Decryption error"
             | Some _ => "Error creating exchange client"
             end) None (trade_error exchange_config);
   LogError "Error executing trade" None (trade_error exchange_config)].

(** What one iteration of [AutoTrader.execute_signal_trade] logs. *)
Definition recording_events `{Fernet} (exchange_config : ExchangeDict) : list Event :=
  if FuturesTrader.auto_trade_on exchange_config then trade_events exchange_config
  else [].

(** A store that differs from an earlier one by added positions only. *)
Definition only_adds_trades (st st' : Store) : Prop :=
  users st' = users st ∧ subscriptions st' = subscriptions st
  ∧ exchanges st' = exchanges st ∧ signals st' = signals st
  ∧ trade_executions st ⊆ trade_executions st'.

(** A computation whose final store is related to its initial one, also
    when it raises. *)
Definition keeps (R : Store → Store → Prop) {A} (m : M A) : Prop :=
  ∀ w, R (store w) (store (m w).2).

(** What [validate_state_token] and [cleanup_expired_sessions] test. *)
Definition expired (now : Z) (session_data : OAuth.Session) : bool :=
  bool_decide (OAuth.se_expires_at session_data < now)%Z.

(** The row of [get_subscribed_users] for a user and a subscription. *)
Definition user_dict (k : Z) (u : UserRow) (s : SubscriptionRow) : UserDict :=
  {| ud_id := k; ud_telegram_id := us_telegram_id u; ud_username := us_username u;
     ud_first_name := us_first_name u; ud_auto_trade := sb_auto_trade s;
     ud_max_position_size := sb_max_position_size s |}.

(** ** Further scenarios *)

Module Cases.

Definition second_user : UserDict :=
  {| ud_id := 2; ud_telegram_id := 102; ud_username := None;
     ud_first_name := None; ud_auto_trade := true;
     ud_max_position_size := Scenario.q 5 1 |}.

Definition corrupt_exchange : ExchangeDict :=
  exchange_dict (2%Z, Scenario.exchange 2 "corrupt" "gsecret2").

(** A token encoder that keeps the nonce only, and token end points that
    accept every code. *)
Definition encode (d : OAuth.StateData) : string := OAuth.st_nonce d.

Definition exchange_code (exchange code : string) (user_id : Z) : Result string :=
  inr exchange.

Definition one_session : string * gmap string OAuth.Session :=
  OAuth._generate_state_token encode 1000 1000 "n1" 7 "kucoin" ∅.

End Cases.

(** * Properties *)

(** ** Store writes *)


Lemma update_trade_pnl_lookup i pnl p st j :
  trade_executions (Models.update_trade_pnl i pnl p st) !! j =
  if decide (i = j) then with_pnl pnl p <$> trade_executions st !! j
  else trade_executions st !! j.
Proof. unfold Models.update_trade_pnl. simpl. rewrite lookup_alter. by case_decide; subst. Qed.

Lemma mark_signal_processed_lookup i st j :
  signals (mark_signal_processed i st) !! j =
  if decide (i = j) then with_status "processed" <$> signals st !! j
  else signals st !! j.
Proof. unfold mark_signal_processed. simpl. rewrite lookup_alter. by case_decide; subst. Qed.

(** ** Closing a position *)




(** ** Running the monad *)

Lemma logged_nil w : logged [] w = w.
Proof. destruct w. unfold logged. simpl. by rewrite app_nil_r. Qed.

Lemma logged_logged l1 l2 w : logged l2 (logged l1 w) = logged (l1 ++ l2) w.
Proof. unfold logged. simpl. by rewrite app_assoc. Qed.


Lemma get_current_price_run cx venue symbol w :
  FuturesTrader.get_current_price cx venue symbol w
  = (inr (quoted cx venue symbol), logged (quote_events cx venue symbol) w).
Proof.
  unfold FuturesTrader.get_current_price, quoted, quote_events, try_catch.
  case_bool_decide; simpl.
  - unfold mbind, M_bind, lift, logged. simpl.
    destruct (FuturesTrader.await_sync (FuturesTrader.fetch_ticker cx venue symbol))
      as [e|price]; simpl.
    + by rewrite <- app_assoc.
    + reflexivity.
  - by rewrite logged_nil.
Qed.

Lemma futures_close_position_run i w :
  FuturesTrader.close_position i w
  = (inr (FuturesTrader.CloseOk 0 0),
     logged [ClosePositionCalled i] w).
Proof. reflexivity. Qed.

Lemma close_position_run now trade reason w :
  AutoTrader.close_position now trade reason w
  = (inr (),
     {| store := close_trade now (td_id trade) 0 0 reason (store w);
        log := log w ++ close_events (td_id trade) reason |}).
Proof.
  unfold AutoTrader.close_position, try_catch, mbind, M_bind.
  rewrite futures_close_position_run. simpl.
  by rewrite <- app_assoc.
Qed.

Lemma pass_step_lookup c g ev w t j :
  trade_executions (store (pass_step c g ev w t)) !! j
  = if c t && bool_decide (td_id t = j)
    then g t <$> trade_executions (store w) !! j
    else trade_executions (store w) !! j.
Proof.
  unfold pass_step. cbn [store]. destruct (c t); [|done].
  cbn [set_trades trade_executions andb]. rewrite lookup_alter.
  case_decide; subst; by case_bool_decide.
Qed.

Lemma pass_step_signals c g ev w t :
  signals (store (pass_step c g ev w t)) = signals (store w).
Proof. unfold pass_step. cbn [store]. by destruct (c t). Qed.

Lemma pass_step_log c g ev w t : log (pass_step c g ev w t) = (log w ++ ev t)%list.
Proof. reflexivity. Qed.

Lemma check_stop_loss_run cx now trade w :
  AutoTrader.check_stop_loss cx now trade w
  = (inr (), pass_step (sl_fires cx) (λ _, closed_at_price now 0 0) (sl_events cx) w trade).
Proof.
  unfold AutoTrader.check_stop_loss, pass_step, sl_events, sl_fires.
  destruct (truthy (td_stop_loss trade)); simpl.
  2: { destruct w. simpl. by rewrite app_nil_r. }
  unfold mbind, M_bind. rewrite get_current_price_run.
  destruct (truthy (quoted _ _ _)); simpl.
  2: { unfold logged. by rewrite app_nil_r. }
  destruct (AutoTrader.stop_loss_hit _ _ _); simpl.
  2: { unfold logged. by rewrite app_nil_r. }
  rewrite close_position_run. cbn [store log logged]. by rewrite <- app_assoc.
Qed.

Lemma check_take_profit_run cx now trade w :
  AutoTrader.check_take_profit cx now trade w
  = (inr (), pass_step (tp_fires cx) (λ _, closed_at_price now 0 0) (tp_events cx) w trade).
Proof.
  unfold AutoTrader.check_take_profit, pass_step, tp_events, tp_fires.
  destruct (truthy (td_take_profit trade)); simpl.
  2: { destruct w. simpl. by rewrite app_nil_r. }
  unfold mbind, M_bind. rewrite get_current_price_run.
  destruct (truthy (quoted _ _ _)); simpl.
  2: { unfold logged. by rewrite app_nil_r. }
  destruct (AutoTrader.take_profit_hit _ _ _); simpl.
  2: { unfold logged. by rewrite app_nil_r. }
  rewrite close_position_run. cbn [store log logged]. by rewrite <- app_assoc.
Qed.

Lemma update_trade_pnl_run cx trade w :
  AutoTrader.update_trade_pnl cx trade w
  = (inr (),
     pass_step (repriced cx) (reprice cx)
       (λ t, quote_events cx (td_exchange_name t) (td_symbol t)) w trade).
Proof.
  unfold AutoTrader.update_trade_pnl, pass_step, repriced, reprice, try_catch.
  unfold mbind, M_bind. rewrite get_current_price_run.
  destruct (truthy (quoted _ _ _)); reflexivity.
Qed.

(** *** Loops *)

Lemma for_each_run {A} (body : A → M ()) (f : World → A → World) (l : list A) :
  (∀ a w, body a w = (inr (), f w a)) →
  ∀ w, for_each l body w = (inr (), foldl f w l).
Proof.
  intros Hbody. induction l as [|a l IH]; intros w; [done|].
  cbn [for_each foldl]. unfold mbind, M_bind. rewrite Hbody. apply IH.
Qed.

Section passes.
Context (c : TradeDict → bool) (g : TradeDict → TradeRow → TradeRow)
  (ev : TradeDict → list Event).

Lemma foldl_pass_log (l : list TradeDict) w :
  log (foldl (pass_step c g ev) w l) = (log w ++ concat (ev <$> l))%list.
Proof.
  revert w. induction l as [|a l IH]; intros w; cbn [foldl fmap list_fmap concat].
  - by rewrite app_nil_r.
  - rewrite IH, pass_step_log. by rewrite <- app_assoc.
Qed.

Lemma foldl_pass_signals (l : list TradeDict) w :
  signals (store (foldl (pass_step c g ev) w l)) = signals (store w).
Proof.
  revert w. induction l as [|a l IH]; intros w; cbn [foldl]; [done|].
  by rewrite IH, pass_step_signals.
Qed.

Lemma foldl_pass_absent (l : list TradeDict) w j :
  j ∉ td_id <$> l →
  trade_executions (store (foldl (pass_step c g ev) w l)) !! j
  = trade_executions (store w) !! j.
Proof.
  revert w. induction l as [|a l IH]; intros w Hj; cbn [foldl]; [done|].
  rewrite fmap_cons, not_elem_of_cons in Hj. destruct Hj as [Hne Hj].
  rewrite IH by done. rewrite pass_step_lookup.
  rewrite bool_decide_eq_false_2 by congruence. by rewrite andb_false_r.
Qed.

Lemma foldl_pass_lookup (l : list TradeDict) w t :
  NoDup (td_id <$> l) → t ∈ l →
  trade_executions (store (foldl (pass_step c g ev) w l)) !! td_id t
  = if c t then g t <$> trade_executions (store w) !! td_id t
    else trade_executions (store w) !! td_id t.
Proof.
  revert w. induction l as [|a l IH]; intros w Hnd Ht; [by apply elem_of_nil in Ht|].
  rewrite fmap_cons, NoDup_cons in Hnd. destruct Hnd as [Ha Hnd].
  cbn [foldl]. apply elem_of_cons in Ht as [->|Ht].
  - rewrite foldl_pass_absent by done. rewrite pass_step_lookup.
    by rewrite bool_decide_eq_true_2, andb_true_r.
  - assert (td_id a ≠ td_id t) as Hne.
    { intros E. apply Ha. rewrite E. by apply list_elem_of_fmap_2. }
    rewrite IH by done. rewrite pass_step_lookup.
    rewrite bool_decide_eq_false_2 by done. by rewrite andb_false_r.
Qed.

End passes.

(** *** The open trades of a store *)

Lemma elem_of_get_open_trades st t :
  t ∈ get_open_trades st ↔
  ∃ i r, trade_executions st !! i = Some r ∧ tr_status r = "open"
         ∧ trade_dict st (i, r) = Some t.
Proof.
  unfold get_open_trades. rewrite merge_sort_Permutation, list_elem_of_omap.
  split.
  - intros ([i r] & Hin & Ht). apply list_elem_of_filter in Hin as [Hopen Hin].
    apply elem_of_map_to_list in Hin. by exists i, r.
  - intros (i & r & Hr & Hopen & Ht). exists (i, r). split; [|done].
    apply list_elem_of_filter. split; [done|]. by apply elem_of_map_to_list.
Qed.

Lemma trade_dict_id st kt t : trade_dict st kt = Some t → td_id t = kt.1.
Proof.
  unfold trade_dict. destruct (signals st !! _); [|done]. by intros [= <-].
Qed.

Lemma NoDup_open_ids st (l : list (Z * TradeRow)) :
  NoDup l.*1 → NoDup (td_id <$> omap (trade_dict st) (filter is_open l)).
Proof.
  induction l as [|kt l IH]; [constructor|].
  rewrite fmap_cons, NoDup_cons. intros [Hkt Hnd].
  assert (∀ t, t ∈ omap (trade_dict st) (filter is_open l) → td_id t ≠ kt.1) as Hfresh.
  { intros t Ht E. apply list_elem_of_omap in Ht as (kt' & Hin & Hd).
    apply list_elem_of_filter in Hin as [_ Hin]. apply trade_dict_id in Hd.
    apply Hkt. rewrite <- E, Hd. by apply list_elem_of_fmap_2. }
  rewrite filter_cons. destruct (decide (is_open kt)); [|by apply IH].
  cbn [omap list_omap]. destruct (trade_dict st kt) as [t|] eqn:Ht; [|by apply IH].
  rewrite fmap_cons, NoDup_cons. split; [|by apply IH].
  intros Hin. apply list_elem_of_fmap in Hin as (t' & E & Hin).
  apply (Hfresh t' Hin). rewrite <- E. by apply trade_dict_id in Ht.
Qed.

Lemma NoDup_get_open_trades st : NoDup (td_id <$> get_open_trades st).
Proof.
  unfold get_open_trades. rewrite merge_sort_Permutation.
  apply NoDup_open_ids, NoDup_fst_map_to_list.
Qed.

Lemma open_trade_elem st i r s :
  trade_executions st !! i = Some r → tr_status r = "open" →
  signals st !! tr_signal_id r = Some s →
  joined i r s ∈ get_open_trades st.
Proof.
  intros Hr Hopen Hs. apply elem_of_get_open_trades. exists i, r.
  split; [done|]. split; [done|]. unfold trade_dict. cbn [fst snd]. by rewrite Hs.
Qed.

Lemma open_trade_inv st t :
  t ∈ get_open_trades st →
  ∃ r s, trade_executions st !! td_id t = Some r ∧ tr_status r = "open"
         ∧ signals st !! tr_signal_id r = Some s ∧ t = joined (td_id t) r s.
Proof.
  intros (i & r & Hr & Hopen & Ht)%elem_of_get_open_trades.
  unfold trade_dict in Ht. cbn [fst snd] in Ht.
  destruct (signals st !! tr_signal_id r) as [s|] eqn:Hs; [|done].
  injection Ht as <-. by exists r, s.
Qed.

(** *** The three passes of a monitoring cycle *)

Lemma monitor_positions_run cx w :
  AutoTrader.monitor_positions cx w
  = (inr (),
     foldl (pass_step (repriced cx) (reprice cx)
              (λ t, quote_events cx (td_exchange_name t) (td_symbol t)))
       w (get_open_trades (store w))).
Proof.
  unfold AutoTrader.monitor_positions, try_catch, mbind, M_bind, gets.
  by rewrite (for_each_run _ _ _ (update_trade_pnl_run cx)).
Qed.

Lemma check_stop_losses_run cx now w :
  AutoTrader.check_stop_losses cx now w
  = (inr (),
     foldl (pass_step (sl_fires cx) (λ _, closed_at_price now 0 0) (sl_events cx))
       w (get_open_trades (store w))).
Proof.
  unfold AutoTrader.check_stop_losses, try_catch, mbind, M_bind, gets.
  by rewrite (for_each_run _ _ _ (check_stop_loss_run cx now)).
Qed.

Lemma check_take_profits_run cx now w :
  AutoTrader.check_take_profits cx now w
  = (inr (),
     foldl (pass_step (tp_fires cx) (λ _, closed_at_price now 0 0) (tp_events cx))
       w (get_open_trades (store w))).
Proof.
  unfold AutoTrader.check_take_profits, try_catch, mbind, M_bind, gets.
  by rewrite (for_each_run _ _ _ (check_take_profit_run cx now)).
Qed.

(** What one pass does to the row of an open position and to its
    signal, and that it leaves every other position alone. *)
Lemma pass_open_row c g ev w i r s :
  trade_executions (store w) !! i = Some r → tr_status r = "open" →
  signals (store w) !! tr_signal_id r = Some s →
  trade_executions
    (store (foldl (pass_step c g ev) w (get_open_trades (store w)))) !! i
  = Some (if c (joined i r s) then g (joined i r s) r else r).
Proof.
  intros Hr Hopen Hs.
  pose proof (foldl_pass_lookup c g ev _ w _ (NoDup_get_open_trades (store w))
                (open_trade_elem _ _ _ _ Hr Hopen Hs)) as H.
  cbn [td_id joined] in H. rewrite H, Hr. by destruct (c _).
Qed.

Lemma pass_other_row c g ev w i r :
  trade_executions (store w) !! i = Some r → tr_status r ≠ "open" →
  trade_executions
    (store (foldl (pass_step c g ev) w (get_open_trades (store w)))) !! i
  = Some r.
Proof.
  intros Hr Hclosed. rewrite foldl_pass_absent; [done|].
  intros (t & -> & Ht)%list_elem_of_fmap.
  apply open_trade_inv in Ht as (r' & s & Hr' & Hopen & _).
  rewrite Hr in Hr'. injection Hr' as <-. done.
Qed.

(** *** Invocations of the adapter's close in a log *)

Lemma adapter_closes_app l1 l2 :
  adapter_closes (l1 ++ l2) = (adapter_closes l1 ++ adapter_closes l2)%list.
Proof. apply omap_app. Qed.

Lemma adapter_closes_quote cx venue symbol :
  adapter_closes (quote_events cx venue symbol) = [].
Proof.
  unfold quote_events. case_bool_decide; [|done].
  by destruct (FuturesTrader.await_sync (FuturesTrader.fetch_ticker cx venue symbol)).
Qed.

Lemma adapter_closes_sl cx t :
  adapter_closes (sl_events cx t) = if sl_fires cx t then [td_id t] else [].
Proof.
  unfold sl_events. rewrite adapter_closes_app.
  destruct (truthy (td_stop_loss t)); rewrite ?adapter_closes_quote;
    by destruct (sl_fires cx t).
Qed.

Lemma adapter_closes_tp cx t :
  adapter_closes (tp_events cx t) = if tp_fires cx t then [td_id t] else [].
Proof.
  unfold tp_events. rewrite adapter_closes_app.
  destruct (truthy (td_take_profit t)); rewrite ?adapter_closes_quote;
    by destruct (tp_fires cx t).
Qed.

Lemma adapter_closes_none (f : TradeDict → list Event) (l : list TradeDict) :
  (∀ t, adapter_closes (f t) = []) → adapter_closes (concat (f <$> l)) = [].
Proof.
  intros Hf. induction l as [|a l IH]; [done|].
  cbn [fmap list_fmap concat]. by rewrite adapter_closes_app, Hf, IH.
Qed.

Lemma elem_of_adapter_closes (f : TradeDict → list Event) (fires : TradeDict → bool)
    (l : list TradeDict) i :
  (∀ t, adapter_closes (f t) = if fires t then [td_id t] else []) →
  i ∈ adapter_closes (concat (f <$> l)) ↔ ∃ t, t ∈ l ∧ td_id t = i ∧ fires t = true.
Proof.
  intros Hf. induction l as [|a l IH].
  - split; [by intros ?%elem_of_nil | by intros (t & ?%elem_of_nil & _)].
  - cbn [fmap list_fmap concat]. rewrite adapter_closes_app, elem_of_app, IH, Hf.
    split.
    + intros [Ha|(t & Ht & Hi & Hfires)].
      * destruct (fires a) eqn:E; [|by apply elem_of_nil in Ha].
        apply list_elem_of_singleton in Ha. exists a. by rewrite elem_of_cons; auto.
      * exists t. rewrite elem_of_cons. auto.
    + intros (t & [->|Ht]%elem_of_cons & Hi & Hfires).
      * left. rewrite Hfires, Hi. apply list_elem_of_singleton. done.
      * right. by exists t.
Qed.

Lemma trading_cycle_run cx now w :
  AutoTrader.trading_cycle cx now w
  = (inr (),
     let w1 := foldl (pass_step (repriced cx) (reprice cx)
                        (λ t, quote_events cx (td_exchange_name t) (td_symbol t)))
                 w (get_open_trades (store w)) in
     let w2 := foldl (pass_step (sl_fires cx) (λ _, closed_at_price now 0 0)
                        (sl_events cx)) w1 (get_open_trades (store w1)) in
     foldl (pass_step (tp_fires cx) (λ _, closed_at_price now 0 0) (tp_events cx))
       w2 (get_open_trades (store w2))).
Proof.
  unfold AutoTrader.trading_cycle, mbind, M_bind.
  by rewrite monitor_positions_run, check_stop_losses_run, check_take_profits_run.
Qed.

(** The repricing pass on an open position. *)
Lemma monitor_pass_row cx w i r s :
  trade_executions (store w) !! i = Some r → tr_status r = "open" →
  signals (store w) !! tr_signal_id r = Some s →
  let w1 := foldl (pass_step (repriced cx) (reprice cx)
                     (λ t, quote_events cx (td_exchange_name t) (td_symbol t)))
              w (get_open_trades (store w)) in
  trade_executions (store w1) !! i
    = Some (if repriced cx (joined i r s) then reprice cx (joined i r s) r else r)
  ∧ signals (store w1) = signals (store w)
  ∧ adapter_closes (log w1) = adapter_closes (log w).
Proof.
  intros Hr Hopen Hs w1. split; [by apply pass_open_row|].
  split; [apply foldl_pass_signals|].
  unfold w1. rewrite foldl_pass_log, adapter_closes_app.
  rewrite adapter_closes_none; [by rewrite app_nil_r|].
  intros t. apply adapter_closes_quote.
Qed.

(** A closing pass on a position that is open when the pass starts. *)
Lemma closing_pass_open (fires : TradeDict → bool) (ev : TradeDict → list Event)
    now w i r s :
  (∀ t, adapter_closes (ev t) = if fires t then [td_id t] else []) →
  trade_executions (store w) !! i = Some r → tr_status r = "open" →
  signals (store w) !! tr_signal_id r = Some s →
  let w' := foldl (pass_step fires (λ _, closed_at_price now 0 0) ev)
              w (get_open_trades (store w)) in
  trade_executions (store w') !! i
    = Some (if fires (joined i r s) then closed_at_price now 0 0 r else r)
  ∧ (i ∈ adapter_closes (log w') ↔
     i ∈ adapter_closes (log w) ∨ fires (joined i r s) = true).
Proof.
  intros Hev Hr Hopen Hs w'. split; [by apply pass_open_row|].
  unfold w'. rewrite foldl_pass_log, adapter_closes_app, elem_of_app.
  rewrite (elem_of_adapter_closes _ fires _ _ Hev).
  split; (intros [?|H]; [by left|right]).
  - destruct H as (t & Ht & <- & Hfires).
    apply open_trade_inv in Ht as (r' & s' & Hr' & _ & Hs' & Ht).
    rewrite Hr in Hr'. injection Hr' as <-. rewrite Hs in Hs'. injection Hs' as <-.
    by rewrite <- Ht.
  - exists (joined i r s). split; [by apply open_trade_elem|done].
Qed.

(** A closing pass on a position that is no longer open. *)
Lemma closing_pass_closed (fires : TradeDict → bool) (ev : TradeDict → list Event)
    now w i r :
  (∀ t, adapter_closes (ev t) = if fires t then [td_id t] else []) →
  trade_executions (store w) !! i = Some r → tr_status r ≠ "open" →
  let w' := foldl (pass_step fires (λ _, closed_at_price now 0 0) ev)
              w (get_open_trades (store w)) in
  trade_executions (store w') !! i = Some r
  ∧ (i ∈ adapter_closes (log w') ↔ i ∈ adapter_closes (log w)).
Proof.
  intros Hev Hr Hclosed w'. split; [by apply pass_other_row|].
  unfold w'. rewrite foldl_pass_log, adapter_closes_app, elem_of_app.
  rewrite (elem_of_adapter_closes _ fires _ _ Hev).
  split; [|by left]. intros [?|(t & Ht & <- & _)]; [done|].
  apply open_trade_inv in Ht as (r' & s' & Hr' & Hopen & _).
  rewrite Hr in Hr'. by injection Hr' as <-.
Qed.

(** One monitoring cycle on one open position: the row is repriced when
    a price came back, then closed when the stop-loss or the
    take-profit comparison holds, and the adapter's close is invoked for
    it exactly in that case. *)
Lemma trading_cycle_row cx now st i r s :
  trade_executions st !! i = Some r → tr_status r = "open" →
  signals st !! tr_signal_id r = Some s →
  let t := joined i r s in
  let r1 := if repriced cx t then reprice cx t r else r in
  let w3 := exec (AutoTrader.trading_cycle cx now) (world_of st) in
  trade_executions (store w3) !! i
    = Some (if sl_fires cx t || tp_fires cx t then closed_at_price now 0 0 r1 else r1)
  ∧ (i ∈ adapter_closes (log w3) ↔ sl_fires cx t || tp_fires cx t = true).
Proof.
  intros Hr Hopen Hs t r1 w3. unfold w3, exec.
  rewrite trading_cycle_run. cbn [snd].
  set (w1 := foldl _ (world_of st) _). set (w2 := foldl _ w1 _).
  destruct (monitor_pass_row cx (world_of st) i r s Hr Hopen Hs)
    as (Hr1 & Hs1 & Hlog1).
  fold w1 in Hr1, Hs1, Hlog1. fold t in Hr1. fold r1 in Hr1.
  assert (tr_status r1 = "open") as Hopen1 by (unfold r1; by destruct (repriced cx t)).
  assert (tr_signal_id r1 = tr_signal_id r) as Hsid1
    by (unfold r1; by destruct (repriced cx t)).
  assert (signals (store w1) !! tr_signal_id r1 = Some s) as Hs1'
    by (by rewrite Hs1, Hsid1).
  assert (sl_fires cx (joined i r1 s) = sl_fires cx t) as Hsl
    by (unfold r1; by destruct (repriced cx t)).
  assert (tp_fires cx (joined i r1 s) = tp_fires cx t) as Htp
    by (unfold r1; by destruct (repriced cx t)).
  destruct (closing_pass_open (sl_fires cx) (sl_events cx) now w1 i r1 s
              (adapter_closes_sl cx) Hr1 Hopen1 Hs1') as (Hr2 & Hlog2).
  fold w2 in Hr2, Hlog2. rewrite Hsl in Hr2, Hlog2.
  rewrite Hlog1 in Hlog2. cbn [world_of log adapter_closes omap list_omap] in Hlog2.
  destruct (sl_fires cx t) eqn:Esl; cbn [orb].
  - destruct (closing_pass_closed (tp_fires cx) (tp_events cx) now w2 i _
                (adapter_closes_tp cx) Hr2) as (Hr3 & Hlog3); [done|].
    split; [done|]. rewrite Hlog3, Hlog2. split; [done|]. by right.
  - assert (signals (store w2) !! tr_signal_id r1 = Some s) as Hs2.
    { unfold w2. by rewrite foldl_pass_signals. }
    destruct (closing_pass_open (tp_fires cx) (tp_events cx) now w2 i r1 s
                (adapter_closes_tp cx) Hr2 Hopen1 Hs2) as (Hr3 & Hlog3).
    rewrite Htp in Hr3, Hlog3. split; [done|]. rewrite Hlog3, Hlog2.
    split; [|by right]. intros [[Hnil|?]|?]; [|done..].
    by apply elem_of_nil in Hnil.
Qed.



(** ** Prices, repricing and triggers *)

Lemma await_sync_raises {A} (answer : Result A) :
  ∃ e, FuturesTrader.await_sync answer = inl e.
Proof. destruct answer as [e|a]; eexists; reflexivity. Qed.

Lemma quoted_none cx venue symbol : quoted cx venue symbol = None.
Proof.
  unfold quoted. case_bool_decide; [|done].
  by destruct (await_sync_raises (FuturesTrader.fetch_ticker cx venue symbol)) as [e ->].
Qed.

Lemma never_repriced cx t : repriced cx t = false.
Proof. unfold repriced. by rewrite quoted_none. Qed.

Lemma sl_never_fires cx t : sl_fires cx t = false.
Proof. unfold sl_fires. rewrite quoted_none. cbn [truthy]. by rewrite andb_false_r. Qed.

Lemma tp_never_fires cx t : tp_fires cx t = false.
Proof. unfold tp_fires. rewrite quoted_none. cbn [truthy]. by rewrite andb_false_r. Qed.

(** A pass whose condition holds for no position leaves the store alone. *)
Lemma foldl_pass_idle c g ev (l : list TradeDict) w :
  (∀ t, c t = false) → store (foldl (pass_step c g ev) w l) = store w.
Proof.
  intros Hc. revert w. induction l as [|a l IH]; intros w; cbn [foldl]; [done|].
  rewrite IH. unfold pass_step. cbn [store]. by rewrite Hc.
Qed.

Lemma monitor_positions_store cx w :
  store (exec (AutoTrader.monitor_positions cx) w) = store w.
Proof.
  unfold exec. rewrite monitor_positions_run. cbn [snd].
  apply foldl_pass_idle, never_repriced.
Qed.

Lemma check_stop_losses_idle cx now w :
  store (exec (AutoTrader.check_stop_losses cx now) w) = store w
  ∧ adapter_closes (log (exec (AutoTrader.check_stop_losses cx now) w))
    = adapter_closes (log w).
Proof.
  unfold exec. rewrite check_stop_losses_run. cbn [snd].
  split; [apply foldl_pass_idle, sl_never_fires|].
  rewrite foldl_pass_log, adapter_closes_app, adapter_closes_none;
    [by rewrite app_nil_r|].
  intros t. by rewrite adapter_closes_sl, sl_never_fires.
Qed.

Lemma check_take_profits_idle cx now w :
  store (exec (AutoTrader.check_take_profits cx now) w) = store w
  ∧ adapter_closes (log (exec (AutoTrader.check_take_profits cx now) w))
    = adapter_closes (log w).
Proof.
  unfold exec. rewrite check_take_profits_run. cbn [snd].
  split; [apply foldl_pass_idle, tp_never_fires|].
  rewrite foldl_pass_log, adapter_closes_app, adapter_closes_none;
    [by rewrite app_nil_r|].
  intros t. by rewrite adapter_closes_tp, tp_never_fires.
Qed.

Lemma trading_cycle_idle cx now w :
  store (exec (AutoTrader.trading_cycle cx now) w) = store w
  ∧ adapter_closes (log (exec (AutoTrader.trading_cycle cx now) w))
    = adapter_closes (log w).
Proof.
  unfold exec. rewrite trading_cycle_run. cbn [snd].
  set (w1 := foldl _ w _). set (w2 := foldl _ w1 _).
  assert (store w1 = store w) as H1 by apply foldl_pass_idle, never_repriced.
  assert (store w2 = store w1) as H2 by apply foldl_pass_idle, sl_never_fires.
  split.
  - rewrite foldl_pass_idle by apply tp_never_fires. by rewrite H2.
  - rewrite foldl_pass_log, adapter_closes_app, adapter_closes_none.
    2: { intros t. by rewrite adapter_closes_tp, tp_never_fires. }
    unfold w2. rewrite foldl_pass_log, adapter_closes_app, adapter_closes_none.
    2: { intros t. by rewrite adapter_closes_sl, sl_never_fires. }
    unfold w1. rewrite foldl_pass_log, adapter_closes_app, adapter_closes_none.
    2: { intros t. apply adapter_closes_quote. }
    by rewrite !app_nil_r.
Qed.

(** C4, on the code: no profit and loss is ever persisted by monitoring.
    [get_current_price] answers [None] for every venue, symbol and venue
    behaviour, because the client it builds is a synchronous one and the
    [await] of its answer raises; so [monitor_positions], and the whole
    monitoring cycle, leave every table as it was, although the store write
    [update_trade_pnl] records the profit and the price it is given. A long
    position entered at 100 with quantity 2 whose venue quotes 110 keeps its
    profit 0 and its empty current price; the log holds the request and the
    [TypeError]. *)
Theorem monitoring_persists_no_pnl cx now w venue symbol :
  (FuturesTrader.get_current_price cx venue symbol w).1 = inr None
  ∧ store (exec (AutoTrader.monitor_positions cx) w) = store w
  ∧ store (exec (AutoTrader.trading_cycle cx now) w) = store w
  ∧ (∀ st i r pnl price, trade_executions st !! i = Some r →
       ∃ r', trade_executions (Models.update_trade_pnl i pnl price st) !! i = Some r'
             ∧ tr_pnl r' = Some pnl ∧ tr_current_price r' = Some price)
  ∧ (let quoting := Scenario.venue (Some (Scenario.q 110 1)) 0 in
     let w' := exec (AutoTrader.monitor_positions quoting)
                 (world_of Scenario.long_store) in
     FuturesTrader.fetch_ticker quoting "binance" "BTCUSDT"
       = inr (Some (Scenario.q 110 1))
     ∧ trade_executions (store w') !! 1 = Some Scenario.long_row
     ∧ tr_pnl Scenario.long_row = Some 0%Qc
     ∧ tr_current_price Scenario.long_row = None
     ∧ log w'
       = [Request "binance" "fetch_ticker" "BTCUSDT";
          LogError "Error getting current price" None
            (TypeError "object dict can't be used in 'await' expression")]).
Proof.
  split; [by rewrite get_current_price_run, quoted_none|].
  split; [apply monitor_positions_store|].
  split; [apply trading_cycle_idle|]. split.
  - intros st i r pnl price Hr. eexists. split.
    + rewrite update_trade_pnl_lookup, Hr. by case_decide.
    + by split.
  - cbn zeta. split; [reflexivity|]. split.
    { by rewrite monitor_positions_store. }
    do 2 (split; [reflexivity|]). vm_compute. reflexivity.
Qed.

(** C5, on the code: monitoring never triggers a close. The stop-loss
    pass, the take-profit pass and the whole cycle invoke the adapter's
    [close_position] for no position and leave every row, its status
    included, as it was, for every venue behaviour. A long position whose
    stop-loss is 95 stays open when the venue quotes 95, 90 or 95.01, and a
    short position whose take-profit is 90 stays open when it quotes 90. *)
Theorem monitoring_triggers_no_close cx now w :
  (store (exec (AutoTrader.check_stop_losses cx now) w) = store w
   ∧ adapter_closes (log (exec (AutoTrader.check_stop_losses cx now) w))
     = adapter_closes (log w))
  ∧ (store (exec (AutoTrader.check_take_profits cx now) w) = store w
     ∧ adapter_closes (log (exec (AutoTrader.check_take_profits cx now) w))
       = adapter_closes (log w))
  ∧ (∀ i, tr_status <$> trade_executions (store (exec (AutoTrader.trading_cycle cx now) w))
                          !! i
          = tr_status <$> trade_executions (store w) !! i)
  ∧ adapter_closes (log (exec (AutoTrader.trading_cycle cx now) w))
    = adapter_closes (log w)
  ∧ tr_status Scenario.long_row = "open"
  ∧ sg_stop_loss Scenario.long_signal = Some (Scenario.q 95 1)
  ∧ Scenario.after_cycle Scenario.long_store (Scenario.q 95 1) = (Some "open", [])
  ∧ Scenario.after_cycle Scenario.long_store (Scenario.q 90 1) = (Some "open", [])
  ∧ Scenario.after_cycle Scenario.long_store (Scenario.q 9501 100) = (Some "open", [])
  ∧ Scenario.after_cycle Scenario.short_store (Scenario.q 90 1) = (Some "open", []).
Proof.
  split; [apply check_stop_losses_idle|]. split; [apply check_take_profits_idle|].
  destruct (trading_cycle_idle cx now w) as [Hstore Hlog].
  split; [intros i; by rewrite Hstore|]. split; [exact Hlog|].
  do 2 (split; [reflexivity|]).
  assert (∀ st price,
            Scenario.after_cycle st price
            = (tr_status <$> trade_executions st !! 1, [])) as Hafter.
  { intros st price. unfold Scenario.after_cycle.
    destruct (trading_cycle_idle (Scenario.venue (Some price) 0) 10 (world_of st))
      as [-> ->]. reflexivity. }
  rewrite !Hafter. by repeat split.
Qed.

(** ** Balance *)

(** C8, counterexample: when the balance request fails, [get_balance]
    answers 0.0 instead of signalling the failure. *)
Lemma get_balance_substitutes_zero :
  FuturesTrader.fetch_balance Scenario.unreachable_venue Scenario.client
    = inl (ExchangeError "network")
  ∧ (FuturesTrader.get_balance Scenario.unreachable_venue Scenario.client
       (world_of Scenario.empty_store)).1 = inr (Some 0%Qc).
Proof. split; reflexivity. Qed.

(** C8, amended: [get_balance] never signals an error. It answers the free
    USDT amount of a successful response that has a USDT account, and the
    substitute 0.0 when the response has no USDT account, when the account
    has no free amount, and when the request raised; the store is not
    touched. *)
Theorem get_balance_never_fails cx exchange w :
  (FuturesTrader.get_balance cx exchange w).1
  = inr match FuturesTrader.fetch_balance cx exchange with
        | inr balance =>
            match balance !! "USDT" with
            | Some account => default (Some 0%Qc) (account !! "free")
            | None => Some 0%Qc
            end
        | inl _ => Some 0%Qc
        end
  ∧ store (FuturesTrader.get_balance cx exchange w).2 = store w.
Proof.
  unfold FuturesTrader.get_balance, try_catch, mbind, M_bind, lift.
  cbn [emit]. destruct (FuturesTrader.fetch_balance cx exchange) as [e|balance].
  - by split.
  - destruct (balance !! "USDT") as [account|]; [|by split].
    destruct (account !! "free"); by split.
Qed.

(** ** Start-up *)

(** C9, counterexample: with the bot token and the administrator set and
    no [ENCRYPTION_KEY] in the environment, validation succeeds and the
    vault is keyed with the built-in default. *)
Lemma starts_without_encryption_key :
  Scenario.env_without_key !! "ENCRYPTION_KEY" = None
  ∧ ∃ cfg, Settings.main Scenario.writable Scenario.env_without_key
           = Settings.Initialising cfg "your-secret-key-here".
Proof. split; [reflexivity|]. eexists. vm_compute. reflexivity. Qed.

(** C9, amended: at start-up [Config.validate] refuses to start when
    [BOT_TOKEN] is missing or empty or [ADMIN_ID] is missing or zero (and
    when a directory cannot be made); the encryption secret is not
    validated: when it is absent from the environment the default
    ['your-secret-key-here'] takes its place and start-up proceeds. *)
Theorem validate_checks_token_and_admin makedirs env cfg :
  Settings.load env = inr cfg →
  (truthy_str (Settings.BOT_TOKEN cfg) = false →
   Settings.main makedirs env
   = Settings.Refused (ValueError "BOT_TOKEN is required in .env file") 1)
  ∧ (truthy_str (Settings.BOT_TOKEN cfg) = true → Settings.ADMIN_ID cfg = 0%Z →
     Settings.main makedirs env
     = Settings.Refused (ValueError "ADMIN_ID is required in .env file") 1)
  ∧ (truthy_str (Settings.BOT_TOKEN cfg) = true → Settings.ADMIN_ID cfg ≠ 0%Z →
     makedirs (Settings.DB_PATH cfg) = inr () →
     makedirs (Settings.LOG_FILE cfg) = inr () →
     Settings.main makedirs env = Settings.Initialising cfg (Settings.ENCRYPTION_KEY cfg))
  ∧ (env !! "ENCRYPTION_KEY" = None →
     Settings.ENCRYPTION_KEY cfg = "your-secret-key-here").
Proof.
  intros Hload. unfold Settings.main, Settings.validate. rewrite Hload.
  repeat split.
  - by intros ->.
  - intros -> ->. reflexivity.
  - intros -> Hadmin -> ->. cbn. by rewrite bool_decide_eq_false_2.
  - intros Hkey. unfold Settings.load in Hload.
    destruct (Settings.getenv_int env "ADMIN_ID" 0) as [|a]; [done|].
    destruct (Settings.getenv_int env "WEBHOOK_PORT" 8443) as [|b]; [done|].
    cbn in Hload. injection Hload as <-. cbn. unfold Settings.getenv. by rewrite Hkey.
Qed.

Lemma validate_checks_token_and_admin_witness :
  ∃ cfg, Settings.load Scenario.env_without_key = inr cfg
         ∧ Settings.ENCRYPTION_KEY cfg = "your-secret-key-here".
Proof.
  eexists. split; [vm_compute; reflexivity|].
  refine (proj2 (proj2 (proj2
    (validate_checks_token_and_admin Scenario.writable Scenario.env_without_key _ _))) _);
    vm_compute; reflexivity.
Defined.

(** ** The vault *)

(** C6: decrypting what [encrypt_credentials] produced gives back the key,
    the secret and the passphrase, the empty passphrase included; an empty
    passphrase is stored as the empty byte string. *)
Theorem decrypt_inverts_encrypt `{Fernet} ivs api_key api_secret passphrase w :
  (encrypt_credentials ivs api_key api_secret passphrase ≫=
     λ '(encrypted_key, encrypted_secret, encrypted_passphrase),
       decrypt_credentials encrypted_key encrypted_secret (Some encrypted_passphrase)) w
  = (inr (api_key, api_secret, passphrase), w)
  ∧ encrypt_credentials ivs api_key api_secret "" w
    = (inr (encrypt ivs.1.1 api_key, encrypt ivs.1.2 api_secret, ""), w)
  ∧ (decrypt_credentials (encrypt ivs.1.1 api_key) (encrypt ivs.1.2 api_secret)
       (Some "") w).1 = inr (api_key, api_secret, "").
Proof.
  assert (∀ m, fernet_decrypt (encrypt ivs.1.1 m) = mret m) as D1.
  { intros m. unfold fernet_decrypt. by rewrite decrypt_encrypt. }
  assert (∀ m, fernet_decrypt (encrypt ivs.1.2 m) = mret m) as D2.
  { intros m. unfold fernet_decrypt. by rewrite decrypt_encrypt. }
  split; [|split].
  - unfold encrypt_credentials, decrypt_credentials, try_catch, mbind, M_bind.
    cbn [mret M_ret]. rewrite D1, D2. cbn [mret M_ret].
    destruct passphrase as [|c passphrase]; [reflexivity|].
    cbn [truthy_str]. pose proof (encrypt_nonempty ivs.2 (String c passphrase)) as Hne.
    destruct (encrypt ivs.2 (String c passphrase)) as [|c' token] eqn:E; [done|].
    cbn [truthy_str default from_option]. unfold fernet_decrypt, id.
    by rewrite <- E, decrypt_encrypt.
  - reflexivity.
  - unfold decrypt_credentials, try_catch, mbind, M_bind.
    rewrite D1, D2. reflexivity.
Qed.

Example vault_round_trip :
  (@encrypt_credentials Scenario.toy_fernet (1, 2, 3)%Z "key" "secret" "" ≫=
     λ '(ek, es, ep), @decrypt_credentials Scenario.toy_fernet ek es (Some ep))
    (world_of Scenario.empty_store)
  = (inr ("key", "secret", ""), world_of Scenario.empty_store).
Proof. reflexivity. Qed.

(** ** Signal distribution *)

Lemma execute_signal_trade_run `{Fernet} cx user signal w :
  FuturesTrader.execute_signal_trade cx user signal w
  = (inr (), logged [no_db_attribute] w).
Proof. reflexivity. Qed.

Lemma execute_for_user_run `{Fernet} cx signal user w :
  SignalProcessor.execute_for_user cx signal user w
  = (inr (), logged [no_db_attribute] w).
Proof. reflexivity. Qed.

Lemma foldl_logged {A} (l : list A) ev w :
  foldl (λ w _, logged [ev] w) w l = logged (replicate (length l) ev) w.
Proof.
  revert w. induction l as [|a l IH]; intros w; cbn [foldl length replicate].
  - by rewrite logged_nil.
  - by rewrite IH, logged_logged.
Qed.

Lemma execute_signal_run `{Fernet} cx signal w :
  SignalProcessor.execute_signal cx signal w
  = (inr (),
     {| store := mark_signal_processed (sd_id signal) (store w);
        log := log w ++ replicate (length (get_subscribed_users (store w)))
                          no_db_attribute |}).
Proof.
  unfold SignalProcessor.execute_signal, try_catch, mbind, M_bind, gets.
  rewrite (for_each_run _ (λ w _, logged [no_db_attribute] w) _
             (execute_for_user_run cx signal)).
  by rewrite foldl_logged.
Qed.

(** *** Overlapping cycles *)

Lemma pending_signal_row now st s :
  s ∈ get_pending_signals now st →
  SignalProcessor.status_of (world_of st) (sd_id s) = Some "pending".
Proof.
  unfold get_pending_signals. rewrite merge_sort_Permutation.
  intros ([i r] & -> & Hin)%list_elem_of_fmap.
  apply list_elem_of_filter in Hin as [[Hstatus _] Hin].
  apply elem_of_map_to_list in Hin. unfold SignalProcessor.status_of.
  cbn [world_of store signal_dict sd_id fst]. rewrite Hin. cbn. by f_equal.
Qed.

Lemma cycle_step_status `{Fernet} cx now c w c' w' i :
  SignalProcessor.cycle_step cx now c w = Some (c', w') →
  SignalProcessor.status_of w' i = SignalProcessor.status_of w i
  ∨ SignalProcessor.status_of w' i = Some "processed".
Proof.
  destruct c as [|[|s rest]|s [|u us] rest|]; cbn [SignalProcessor.cycle_step];
    intros [= <- <-]; try by left.
  unfold SignalProcessor.status_of, exec, modify. cbn [snd store].
  rewrite mark_signal_processed_lookup. case_decide; [|by left].
  destruct (signals (store w) !! i); [by right|by left].
Qed.

Lemma sys_step_status `{Fernet} cx now sys sys' i :
  SignalProcessor.sys_step cx now sys sys' →
  SignalProcessor.status_of (SignalProcessor.world sys') i
    = SignalProcessor.status_of (SignalProcessor.world sys) i
  ∨ SignalProcessor.status_of (SignalProcessor.world sys') i = Some "processed".
Proof. destruct 1; cbn; by eapply cycle_step_status. Qed.

Lemma sys_steps_status `{Fernet} cx now sys sys' i :
  SignalProcessor.sys_steps cx now sys sys' →
  SignalProcessor.status_of (SignalProcessor.world sys') i
    = SignalProcessor.status_of (SignalProcessor.world sys) i
  ∨ SignalProcessor.status_of (SignalProcessor.world sys') i = Some "processed".
Proof.
  unfold SignalProcessor.sys_steps. induction 1 as [sys|sys mid sys' Hstep _ IH].
  - by left.
  - destruct (sys_step_status cx now sys mid i Hstep) as [E|E].
    + by rewrite <- E.
    + destruct IH as [IH|IH]; right; [by rewrite IH|done].
Qed.

(** Both cycles read the pending signals before either has written, and
    both go on to execute the first of them. *)
Lemma both_cycles_take_signal `{Fernet} cx now st s rest :
  get_pending_signals now st = s :: rest →
  SignalProcessor.sys_steps cx now (two_cycles st)
    {| SignalProcessor.first :=
         SignalProcessor.Executing s (get_subscribed_users st) rest;
       SignalProcessor.second :=
         SignalProcessor.Executing s (get_subscribed_users st) rest;
       SignalProcessor.world := world_of st |}.
Proof.
  intros Hpending. unfold SignalProcessor.sys_steps, two_cycles.
  eapply rtc_l; [by apply SignalProcessor.step_first|].
  eapply rtc_l; [by apply SignalProcessor.step_second|].
  cbn [world_of store]. rewrite Hpending.
  eapply rtc_l; [by apply SignalProcessor.step_first|].
  eapply rtc_l; [by apply SignalProcessor.step_second|].
  apply rtc_refl.
Qed.

(** C1, counterexample: two overlapping cycles both take the pending
    signal 1, and while both are executing it its status is still
    [pending]. *)
Lemma both_cycles_claim_the_signal :
  ∃ sys,
    @SignalProcessor.sys_steps Scenario.toy_fernet
      (Scenario.venue None (Scenario.q 1000 1)) 0
      (two_cycles Scenario.three_users) sys
    ∧ SignalProcessor.executing (SignalProcessor.first sys) = Some 1%Z
    ∧ SignalProcessor.executing (SignalProcessor.second sys) = Some 1%Z
    ∧ SignalProcessor.status_of (SignalProcessor.world sys) 1 = Some "pending".
Proof.
  eexists. split.
  - apply (both_cycles_take_signal _ 0 Scenario.three_users Scenario.btc_dict []).
    vm_compute. reflexivity.
  - repeat split; vm_compute; reflexivity.
Qed.

(** C1, amended: the engine makes no claim write. A pending signal is
    read, stays pending while its subscribers are attempted, and is then
    set to [processed] by an unconditional write; no step of a cycle sets
    any other status, so [processing] is never written, and two cycles that
    overlap can both be executing the same pending signal. *)
Theorem pending_signal_is_not_claimed `{Fernet} cx now st s rest :
  get_pending_signals now st = s :: rest →
  (∃ sys,
     SignalProcessor.sys_steps cx now (two_cycles st) sys
     ∧ SignalProcessor.executing (SignalProcessor.first sys) = Some (sd_id s)
     ∧ SignalProcessor.executing (SignalProcessor.second sys) = Some (sd_id s)
     ∧ SignalProcessor.status_of (SignalProcessor.world sys) (sd_id s) = Some "pending")
  ∧ (∀ sys i,
       SignalProcessor.sys_steps cx now (two_cycles st) sys →
       SignalProcessor.status_of (SignalProcessor.world sys) i
         = SignalProcessor.status_of (world_of st) i
       ∨ SignalProcessor.status_of (SignalProcessor.world sys) i = Some "processed")
  ∧ SignalProcessor.status_of
      (exec (SignalProcessor.execute_signal cx s) (world_of st)) (sd_id s)
    = Some "processed".
Proof.
  intros Hpending.
  assert (SignalProcessor.status_of (world_of st) (sd_id s) = Some "pending") as Hrow.
  { apply (pending_signal_row now). rewrite Hpending. apply elem_of_cons. by left. }
  split; [|split].
  - eexists. split; [by apply both_cycles_take_signal|]. by repeat split.
  - intros sys i Hsteps. apply (sys_steps_status cx now _ _ i Hsteps).
  - unfold exec. rewrite execute_signal_run.
    unfold SignalProcessor.status_of in *. cbn [snd store world_of] in *.
    rewrite mark_signal_processed_lookup. case_decide; [|done].
    by destruct (signals st !! sd_id s).
Qed.

Lemma pending_signal_is_not_claimed_witness :
  get_pending_signals 0 Scenario.three_users = [Scenario.btc_dict]
  ∧ SignalProcessor.status_of
      (exec (@SignalProcessor.execute_signal Scenario.toy_fernet
               (Scenario.venue None (Scenario.q 1000 1)) Scenario.btc_dict)
         (world_of Scenario.three_users)) 1
    = Some "processed".
Proof.
  assert (get_pending_signals 0 Scenario.three_users = [Scenario.btc_dict]) as Hp
    by (vm_compute; reflexivity).
  split; [exact Hp|].
  exact (proj2 (proj2
    (@pending_signal_is_not_claimed Scenario.toy_fernet
       (Scenario.venue None (Scenario.q 1000 1)) 0 Scenario.three_users
       Scenario.btc_dict [] Hp))).
Defined.

(** C3, on the code: a signal distributed to three eligible users, one of
    whose credentials does not decrypt, opens no position and places no
    order; each of the three attempts ends in the logged [AttributeError]
    of [self.auth_manager.db], before any credential is decrypted; the
    signal is marked [processed]. *)
Theorem distribution_places_nothing :
  length (get_subscribed_users Scenario.three_users) = 3%nat
  ∧ size (trade_executions (store Scenario.distributed)) = 0%nat
  ∧ Scenario.market_orders (log Scenario.distributed) = 0%nat
  ∧ Scenario.attribute_errors (log Scenario.distributed) = 3%nat
  ∧ Scenario.decryption_errors (log Scenario.distributed) = 0%nat
  ∧ sg_status <$> signals (store Scenario.distributed) !! 1 = Some "processed".
Proof.
  unfold Scenario.distributed, exec. rewrite execute_signal_run.
  repeat split; vm_compute; reflexivity.
Qed.

(** For every store and signal the distribution leaves the positions as
    they were. *)
Lemma distribution_never_records `{Fernet} cx signal w :
  trade_executions (store (exec (SignalProcessor.execute_signal cx signal) w))
  = trade_executions (store w).
Proof. unfold exec. by rewrite execute_signal_run. Qed.

(** The variant in [AutoTrader], on the same three users, opens no
    position either: the credential of user 2 does not decrypt, and for
    the two others the client cannot be built, since [Config] has no
    [TESTNET_MODE] (logged by [get_exchange_client] and again by
    [execute_trade]). *)
Example recording_variant_opens_none :
  size (trade_executions (store Scenario.distributed_recording)) = 0%nat
  ∧ Scenario.market_orders (log Scenario.distributed_recording) = 0%nat
  ∧ Scenario.decryption_errors (log Scenario.distributed_recording) = 1%nat
  ∧ Scenario.attribute_errors (log Scenario.distributed_recording) = 4%nat.
Proof. repeat split; vm_compute; reflexivity. Qed.

(** A cycle that runs alone does what [process_pending_signals] does. *)
Definition cycle_rel `{Fernet} (cx : FuturesTrader.Ccxt) (now : Z)
    (a b : SignalProcessor.Cycle * World) : Prop :=
  SignalProcessor.cycle_step cx now a.1 a.2 = Some b.

Lemma cycle_executes_users `{Fernet} cx now s (us : list UserDict) rest w :
  rtc (cycle_rel cx now) (SignalProcessor.Executing s us rest, w)
    (SignalProcessor.Iterating rest,
     {| store := mark_signal_processed (sd_id s) (store w);
        log := log w ++ replicate (length us) no_db_attribute |}).
Proof.
  revert w. induction us as [|u us IH]; intros w.
  - eapply rtc_l; [reflexivity|]. cbn [length replicate]. rewrite app_nil_r.
    apply rtc_refl.
  - eapply rtc_l; [reflexivity|]. unfold exec. rewrite execute_for_user_run.
    cbn [snd]. specialize (IH (logged [no_db_attribute] w)).
    cbn [logged store log] in IH. rewrite <- app_assoc in IH. exact IH.
Qed.

Lemma cycle_iterates_signals `{Fernet} cx now (l : list SignalDict) w :
  rtc (cycle_rel cx now) (SignalProcessor.Iterating l, w)
    (SignalProcessor.Finished,
     foldl (λ w s, exec (SignalProcessor.execute_signal cx s) w) w l).
Proof.
  revert w. induction l as [|s l IH]; intros w.
  - eapply rtc_l; [reflexivity|]. apply rtc_refl.
  - eapply rtc_l; [reflexivity|]. cbn [foldl].
    eapply rtc_trans; [apply cycle_executes_users|].
    unfold exec at 2. rewrite execute_signal_run. apply IH.
Qed.

Lemma solo_cycle `{Fernet} cx now w :
  rtc (cycle_rel cx now) (SignalProcessor.Polling, w)
    (SignalProcessor.Finished,
     exec (SignalProcessor.process_pending_signals cx now) w).
Proof.
  eapply rtc_l; [reflexivity|].
  assert (exec (SignalProcessor.process_pending_signals cx now) w
          = foldl (λ w s, exec (SignalProcessor.execute_signal cx s) w) w
              (get_pending_signals now (store w))) as ->.
  { unfold exec, SignalProcessor.process_pending_signals, try_catch, mbind, M_bind, gets.
    rewrite (for_each_run _ (λ w s, exec (SignalProcessor.execute_signal cx s) w)).
    - reflexivity.
    - intros s w'. unfold exec. by rewrite execute_signal_run. }
  apply cycle_iterates_signals.
Qed.

(** ** The emergency close *)




Lemma elem_of_get_active_trades st t :
  t ∈ get_active_trades st ↔
  ∃ i r, trade_executions st !! i = Some r ∧ tr_status r = "open"
         ∧ t = active_trade_dict (i, r).
Proof.
  unfold get_active_trades. rewrite merge_sort_Permutation, list_elem_of_fmap.
  split.
  - intros ([i r] & -> & Hin). apply list_elem_of_filter in Hin as [Hopen Hin].
    apply elem_of_map_to_list in Hin. by exists i, r.
  - intros (i & r & Hr & Hopen & ->). exists (i, r). split; [done|].
    apply list_elem_of_filter. split; [done|]. by apply elem_of_map_to_list.
Qed.







(** * Further properties *)

(** ** Row ids *)

Lemma le_foldr_max (l : list Z) k : k ∈ l → (k ≤ foldr Z.max 0 l)%Z.
Proof.
  induction l as [|a l IH]; [by intros ?%elem_of_nil|].
  intros [->|Hk]%elem_of_cons; cbn [foldr]; [lia|]. specialize (IH Hk). lia.
Qed.

Lemma next_rowid_fresh {A} (m : gmap Z A) : m !! next_rowid m = None.
Proof.
  destruct (m !! next_rowid m) as [x|] eqn:E; [|done].
  apply elem_of_map_to_list in E.
  assert (next_rowid m ∈ (map_to_list m).*1) as Hin.
  { apply list_elem_of_fmap. by exists (next_rowid m, x). }
  apply le_foldr_max in Hin. unfold next_rowid in Hin. lia.
Qed.

(** ** Pending and unprocessed signals *)

Lemma elem_of_get_pending_signals now st s :
  s ∈ get_pending_signals now st ↔
  ∃ i r, signals st !! i = Some r ∧ is_pending now r ∧ s = signal_dict (i, r).
Proof.
  unfold get_pending_signals. rewrite merge_sort_Permutation, list_elem_of_fmap.
  split.
  - intros ([i r] & -> & Hin). apply list_elem_of_filter in Hin as [Hp Hin].
    apply elem_of_map_to_list in Hin. by exists i, r.
  - intros (i & r & Hr & Hp & ->). exists (i, r). split; [done|].
    apply list_elem_of_filter. split; [done|]. by apply elem_of_map_to_list.
Qed.

Lemma elem_of_get_unprocessed_signals now st d :
  d ∈ SignalModel.get_unprocessed_signals now st ↔
  ∃ i r, signals st !! i = Some r ∧ SignalModel.is_unprocessed now r
         ∧ d = SignalModel.unprocessed_dict (i, r).
Proof.
  unfold SignalModel.get_unprocessed_signals.
  rewrite merge_sort_Permutation, list_elem_of_fmap. split.
  - intros ([i r] & -> & Hin). apply list_elem_of_filter in Hin as [Hp Hin].
    apply elem_of_map_to_list in Hin. by exists i, r.
  - intros (i & r & Hr & Hp & ->). exists (i, r). split; [done|].
    apply list_elem_of_filter. split; [done|]. by apply elem_of_map_to_list.
Qed.

Lemma execute_signal_exec `{Fernet} cx signal w :
  exec (SignalProcessor.execute_signal cx signal) w
  = {| store := mark_signal_processed (sd_id signal) (store w);
       log := log w ++ replicate (length (get_subscribed_users (store w)))
                         no_db_attribute |}.
Proof. unfold exec. by rewrite execute_signal_run. Qed.

(** What a run of executions does to each table and to the log. *)
Lemma foldl_execute_signal `{Fernet} cx (l : list SignalDict) w :
  let w' := foldl (λ w s, exec (SignalProcessor.execute_signal cx s) w) w l in
  (∀ i, signals (store w') !! i
        = if bool_decide (i ∈ sd_id <$> l)
          then with_status "processed" <$> signals (store w) !! i
          else signals (store w) !! i)
  ∧ trade_executions (store w') = trade_executions (store w)
  ∧ users (store w') = users (store w)
  ∧ subscriptions (store w') = subscriptions (store w)
  ∧ exchanges (store w') = exchanges (store w)
  ∧ ∃ n, log w' = (log w ++ replicate n no_db_attribute)%list.
Proof.
  revert w. induction l as [|s l IH]; intros w; cbn [foldl].
  - split; [|do 4 (split; [done|]); exists 0%nat; cbn; by rewrite app_nil_r].
    intros i. by rewrite bool_decide_eq_false_2 by apply not_elem_of_nil.
  - rewrite execute_signal_exec.
    destruct (IH {| store := mark_signal_processed (sd_id s) (store w);
                    log := log w ++ replicate (length (get_subscribed_users (store w)))
                                      no_db_attribute |})
      as (Hsig & Htr & Hus & Hsub & Hex & n & Hlog).
    cbn [store log] in *.
    split; [|split; [by rewrite Htr|split; [by rewrite Hus|split;
                [by rewrite Hsub|split; [by rewrite Hex|]]]]].
    + intros i. rewrite Hsig, mark_signal_processed_lookup, fmap_cons.
      destruct (decide (sd_id s = i)) as [->|Hne].
      * rewrite (bool_decide_eq_true_2 (i ∈ i :: _)) by (apply elem_of_cons; by left).
        case_bool_decide; [|done]. by destruct (signals (store w) !! i).
      * case_bool_decide as Hin.
        -- rewrite bool_decide_eq_true_2; [done|]. apply elem_of_cons. by right.
        -- rewrite bool_decide_eq_false_2; [done|].
           intros [?|?]%elem_of_cons; [congruence|done].
    + exists (length (get_subscribed_users (store w)) + n)%nat.
      by rewrite Hlog, <- app_assoc, replicate_add.
Qed.

Lemma process_pending_signals_run `{Fernet} cx now w :
  exec (SignalProcessor.process_pending_signals cx now) w
  = foldl (λ w s, exec (SignalProcessor.execute_signal cx s) w) w
      (get_pending_signals now (store w)).
Proof.
  unfold exec, SignalProcessor.process_pending_signals, try_catch, mbind, M_bind, gets.
  rewrite (for_each_run _ (λ w s, exec (SignalProcessor.execute_signal cx s) w)).
  - reflexivity.
  - intros s w'. unfold exec. by rewrite execute_signal_run.
Qed.

Lemma requests_of_replicate n : requests_of (replicate n no_db_attribute) = [].
Proof.
  unfold requests_of. induction n as [|n IH]; [done|]. cbn [replicate].
  by rewrite filter_cons_False by (cbn; auto).
Qed.

Lemma process_pending_rows `{Fernet} cx now st i r :
  signals st !! i = Some r →
  signals (store (exec (SignalProcessor.process_pending_signals cx now) (world_of st)))
    !! i
  = Some (if bool_decide (is_pending now r) then with_status "processed" r else r).
Proof.
  intros Hr. rewrite process_pending_signals_run.
  destruct (foldl_execute_signal cx (get_pending_signals now st) (world_of st))
    as (Hsig & _). cbn [world_of store] in *.
  rewrite Hsig, Hr. case_bool_decide as Hin.
  - apply list_elem_of_fmap in Hin as (s & -> & Hs).
    apply elem_of_get_pending_signals in Hs as (j & r' & Hr' & Hp & ->).
    cbn [signal_dict sd_id fst] in Hr. rewrite Hr in Hr'. injection Hr' as <-.
    by rewrite bool_decide_eq_true_2.
  - rewrite bool_decide_eq_false_2; [done|]. intros Hp. apply Hin.
    apply list_elem_of_fmap. exists (signal_dict (i, r)). split; [done|].
    apply elem_of_get_pending_signals. by exists i, r.
Qed.

Lemma process_pending_absent `{Fernet} cx now st i :
  signals st !! i = None →
  signals (store (exec (SignalProcessor.process_pending_signals cx now) (world_of st)))
    !! i = None.
Proof.
  intros Hr. rewrite process_pending_signals_run.
  destruct (foldl_execute_signal cx (get_pending_signals now st) (world_of st))
    as (Hsig & _). cbn [world_of store] in *.
  rewrite Hsig, Hr. by case_bool_decide.
Qed.

(** One polling cycle sets every signal that is pending and unexpired to
    [processed] and leaves every other signal row as it was, the expired
    pending ones included; afterwards no signal is pending and unexpired,
    at that time or later. The cycle writes no position and sends no
    request to an exchange. *)
Theorem cycle_processes_every_pending_signal `{Fernet} cx now st :
  let w := exec (SignalProcessor.process_pending_signals cx now) (world_of st) in
  (∀ i r, signals st !! i = Some r →
     signals (store w) !! i
     = Some (if bool_decide (is_pending now r) then with_status "processed" r else r))
  ∧ (∀ now', (now ≤ now')%Z → get_pending_signals now' (store w) = [])
  ∧ trade_executions (store w) = trade_executions st
  ∧ requests_of (log w) = [].
Proof.
  intros w. split; [intros i r; apply process_pending_rows|]. split; [|split].
  - intros now' Hle. apply elem_of_nil_inv. intros s Hs.
    apply elem_of_get_pending_signals in Hs as (i & r' & Hr' & [Hstatus Hun] & _).
    destruct (signals st !! i) as [r|] eqn:Hr.
    + unfold w in Hr'. rewrite (process_pending_rows cx now st i r Hr) in Hr'.
      injection Hr' as <-. case_bool_decide as Hp; [done|]. apply Hp.
      split; [done|]. unfold unexpired in *. destruct (sg_expires_at r); [lia|done].
    + unfold w in Hr'. by rewrite (process_pending_absent cx now st i Hr) in Hr'.
  - unfold w. rewrite process_pending_signals_run.
    by destruct (foldl_execute_signal cx (get_pending_signals now st) (world_of st))
      as (_ & Htr & _).
  - unfold w. rewrite process_pending_signals_run.
    change (store (world_of st)) with st.
    destruct (foldl_execute_signal cx (get_pending_signals now st) (world_of st))
      as (_ & _ & _ & _ & _ & n & Hlog).
    rewrite Hlog. cbn [world_of log app]. apply requests_of_replicate.
Qed.

(** ** Creating signals *)

Lemma create_signal_lookup now local_now symbol signal_type entry_price stop_loss
    take_profit leverage position_size_percent created_by expires_hours st :
  let created := SignalModel.create_signal now local_now symbol signal_type entry_price
                   stop_loss take_profit leverage position_size_percent created_by
                   expires_hours st in
  signals st !! created.1 = None
  ∧ signals created.2 !! created.1
    = Some {| sg_symbol := symbol; sg_signal_type := signal_type;
              sg_entry_price := entry_price; sg_stop_loss := stop_loss;
              sg_take_profit := take_profit; sg_leverage := Some leverage;
              sg_position_size_percent := Some position_size_percent;
              sg_status := "active"; sg_is_processed := false;
              sg_expires_at := Some (local_now + 3600 * expires_hours)%Z;
              sg_created_by := created_by; sg_created_at := now |}
  ∧ (∀ j, j ≠ created.1 → signals created.2 !! j = signals st !! j).
Proof.
  cbn [SignalModel.create_signal fst snd set_signals signals].
  split; [apply next_rowid_fresh|]. split; [apply lookup_insert_eq|].
  intros j Hj. by apply lookup_insert_ne.
Qed.

(** A signal stored by [create_signal] has status [active], which the
    distribution cycle does not select: it is in no list of pending
    signals, at any time, and a polling cycle leaves its row as it is. The
    signals that were there keep their rows. *)
Theorem created_signal_is_never_distributed `{Fernet} cx now local_now symbol
    signal_type entry_price stop_loss take_profit leverage position_size_percent
    created_by expires_hours st now' :
  let created := SignalModel.create_signal now local_now symbol signal_type entry_price
                   stop_loss take_profit leverage position_size_percent created_by
                   expires_hours st in
  sg_status <$> signals created.2 !! created.1 = Some "active"
  ∧ (∀ s, s ∈ get_pending_signals now' created.2 → sd_id s ≠ created.1)
  ∧ signals (store (exec (SignalProcessor.process_pending_signals cx now')
                      (world_of created.2))) !! created.1
    = signals created.2 !! created.1
  ∧ (∀ j r, signals st !! j = Some r → signals created.2 !! j = Some r).
Proof.
  intros created.
  destruct (create_signal_lookup now local_now symbol signal_type entry_price stop_loss
              take_profit leverage position_size_percent created_by expires_hours st)
    as (Hfresh & Hrow & Hother). fold created in Hfresh, Hrow, Hother.
  split; [by rewrite Hrow|]. split; [|split].
  - intros s (i & r & Hr & [Hstatus _] & ->)%elem_of_get_pending_signals E.
    cbn [signal_dict sd_id fst] in E. subst i. rewrite Hrow in Hr.
    injection Hr as <-. discriminate Hstatus.
  - rewrite (process_pending_rows cx now' _ _ _ Hrow), Hrow.
    rewrite bool_decide_eq_false_2; [done|]. intros [Hstatus _]. discriminate Hstatus.
  - intros j r Hr. rewrite Hother; [done|]. intros ->. by rewrite Hfresh in Hr.
Qed.

(** A signal stored by [create_signal] is listed by
    [get_unprocessed_signals] with the values it was created with for as
    long as it has not expired, and no longer once [mark_signal_processed]
    was applied to it. *)
Theorem created_signal_is_unprocessed_until_marked now local_now symbol signal_type
    entry_price stop_loss take_profit leverage position_size_percent created_by
    expires_hours st now' :
  (now' < local_now + 3600 * expires_hours)%Z →
  let created := SignalModel.create_signal now local_now symbol signal_type entry_price
                   stop_loss take_profit leverage position_size_percent created_by
                   expires_hours st in
  {| SignalModel.un_id := created.1; SignalModel.un_symbol := symbol;
     SignalModel.un_signal_type := signal_type;
     SignalModel.un_entry_price := entry_price;
     SignalModel.un_stop_loss := stop_loss;
     SignalModel.un_take_profit := take_profit;
     SignalModel.un_leverage := Some leverage;
     SignalModel.un_position_size_percent := Some position_size_percent;
     SignalModel.un_created_by := created_by;
     SignalModel.un_created_at := now |}
    ∈ SignalModel.get_unprocessed_signals now' created.2
  ∧ (∀ d, d ∈ SignalModel.get_unprocessed_signals now'
                (mark_signal_processed created.1 created.2) →
          SignalModel.un_id d ≠ created.1).
Proof.
  intros Hlive created.
  destruct (create_signal_lookup now local_now symbol signal_type entry_price stop_loss
              take_profit leverage position_size_percent created_by expires_hours st)
    as (_ & Hrow & _). fold created in Hrow.
  split.
  - apply elem_of_get_unprocessed_signals. eexists _, _. split; [exact Hrow|].
    split; [|reflexivity]. by repeat split.
  - intros d (i & r & Hr & (_ & Hstatus & _) & ->)%elem_of_get_unprocessed_signals E.
    cbn [SignalModel.unprocessed_dict SignalModel.un_id fst] in E. subst i.
    rewrite mark_signal_processed_lookup, Hrow in Hr.
    rewrite decide_True in Hr by done. injection Hr as <-. discriminate Hstatus.
Qed.

Lemma created_signal_is_unprocessed_until_marked_witness :
  ∃ d, d ∈ SignalModel.get_unprocessed_signals 10
             (SignalModel.create_signal 0 0 "ETHUSDT" "BUY" (Scenario.q 2000 1)
                (Some (Scenario.q 1900 1)) (Some (Scenario.q 2200 1)) 10
                (Scenario.q 5 1) 42 24 Scenario.three_users).2
       ∧ SignalModel.un_symbol d = "ETHUSDT".
Proof.
  assert (10 < 0 + 3600 * 24)%Z as Hlive by reflexivity.
  eexists. split.
  - exact (proj1 (created_signal_is_unprocessed_until_marked 0 0 "ETHUSDT" "BUY"
                    (Scenario.q 2000 1) (Some (Scenario.q 1900 1))
                    (Some (Scenario.q 2200 1)) 10 (Scenario.q 5 1) 42 24
                    Scenario.three_users 10 Hlive)).
  - reflexivity.
Defined.

(** ** Recording positions *)

(** [create_trade] adds exactly one row, under a fresh id, when the
    exchange it names exists: an open position on that exchange's venue
    with side [BUY] or [SELL], which [get_active_trades] lists; every other
    row stays as it was. When the exchange does not exist nothing is
    stored. The stop-loss, take-profit and leverage it is given are not
    stored in either case. *)
Theorem create_trade_opens_one_position now user_id exchange_id signal_id symbol action
    entry_price quantity stop_loss take_profit leverage st :
  let st' := create_trade now user_id exchange_id signal_id symbol action entry_price
               quantity stop_loss take_profit leverage st in
  let i := next_rowid (trade_executions st) in
  match exchanges st !! exchange_id with
  | None => st' = st
  | Some e =>
      trade_executions st !! i = None
      ∧ trade_executions st' !! i
        = Some {| tr_signal_id := signal_id; tr_user_id := user_id;
                  tr_exchange_name := ex_exchange_name e; tr_symbol := symbol;
                  tr_side := action_side action; tr_quantity := quantity;
                  tr_entry_price := entry_price; tr_current_price := None;
                  tr_pnl := Some 0%Qc; tr_status := "open"; tr_order_id := None;
                  tr_executed_at := now; tr_closed_at := None |}
      ∧ (action_side action = "BUY" ∨ action_side action = "SELL")
      ∧ (∀ j, j ≠ i → trade_executions st' !! j = trade_executions st !! j)
      ∧ size (trade_executions st') = S (size (trade_executions st))
      ∧ (∃ d, d ∈ get_active_trades st' ∧ at_id d = i)
  end
  ∧ st' = create_trade now user_id exchange_id signal_id symbol action entry_price
            quantity None None None st.
Proof.
  intros st' i. split; [|reflexivity]. unfold st', create_trade.
  destruct (exchanges st !! exchange_id) as [e|]; [|done].
  cbn [set_trades trade_executions]. fold i.
  pose proof (next_rowid_fresh (trade_executions st)) as Hfresh. fold i in Hfresh.
  split; [done|]. split; [apply lookup_insert_eq|]. split.
  { unfold action_side. case_bool_decide; auto. }
  split; [intros j Hj; by apply lookup_insert_ne|].
  split; [by apply map_size_insert_None|].
  eexists (active_trade_dict (i, _)). split; [|reflexivity].
  apply elem_of_get_active_trades.
  eexists i, _. split; [apply lookup_insert_eq|]. by split.
Qed.

(** A position as [create_trade] records it has side [BUY] or [SELL], while
    both closing passes compare the upper-cased side with [LONG] and
    [SHORT]: for a position so recorded neither comparison holds, at any
    price and any level. *)
Theorem recorded_side_matches_no_trigger now user_id exchange_id signal_id symbol
    action entry_price quantity stop_loss take_profit leverage st e :
  exchanges st !! exchange_id = Some e →
  let st' := create_trade now user_id exchange_id signal_id symbol action entry_price
               quantity stop_loss take_profit leverage st in
  ∃ r, trade_executions st' !! next_rowid (trade_executions st) = Some r
       ∧ tr_status r = "open"
       ∧ (tr_side r = "BUY" ∨ tr_side r = "SELL")
       ∧ AutoTrader.is_long (tr_side r) = false
       ∧ AutoTrader.is_short (tr_side r) = false
       ∧ ∀ price level,
           AutoTrader.stop_loss_hit (tr_side r) price level = false
           ∧ AutoTrader.take_profit_hit (tr_side r) price level = false.
Proof.
  intros He st'. unfold st', create_trade. rewrite He.
  cbn [set_trades trade_executions]. eexists. split; [apply lookup_insert_eq|].
  cbn [tr_status tr_side]. split; [done|].
  assert (AutoTrader.is_long (action_side action) = false
          ∧ AutoTrader.is_short (action_side action) = false) as [Hl Hs].
  { unfold action_side. by case_bool_decide. }
  split; [unfold action_side; case_bool_decide; auto|].
  do 2 (split; [done|]). intros price level.
  unfold AutoTrader.stop_loss_hit, AutoTrader.take_profit_hit. by rewrite Hl, Hs.
Qed.

Lemma recorded_side_matches_no_trigger_witness :
  ∃ r, trade_executions
         (create_trade 5 1 1 1 "BTCUSDT" "long" (Scenario.q 35000 1) (Scenario.q 1 1)
            None None (Some 10%Z) Scenario.three_users) !! 1 = Some r
       ∧ tr_side r = "BUY" ∧ AutoTrader.is_long (tr_side r) = false.
Proof.
  destruct (recorded_side_matches_no_trigger 5 1 1 1 "BTCUSDT" "long"
              (Scenario.q 35000 1) (Scenario.q 1 1) None None (Some 10%Z)
              Scenario.three_users (Scenario.exchange 1 "gkey1" "gsecret1") eq_refl)
    as (r & Hr & _ & _ & Hlong & _).
  exists r. split; [exact Hr|]. split; [|exact Hlong].
  vm_compute in Hr. by injection Hr as <-.
Defined.

(** ** What a monitoring cycle leaves alone *)

(** The positions a pass iterates over: open, with their signal row. *)
Lemma managed_iff st i :
  i ∈ td_id <$> get_open_trades st ↔
  ∃ r s, trade_executions st !! i = Some r ∧ tr_status r = "open"
         ∧ signals st !! tr_signal_id r = Some s.
Proof.
  rewrite list_elem_of_fmap. split.
  - intros (t & -> & Ht). apply open_trade_inv in Ht as (r & s & Hr & Hopen & Hs & _).
    by exists r, s.
  - intros (r & s & Hr & Hopen & Hs). exists (joined i r s). split; [done|].
    by apply open_trade_elem.
Qed.

Section one_pass.
Context (c : TradeDict → bool) (g : TradeDict → TradeRow → TradeRow)
  (ev : TradeDict → list Event).

Lemma foldl_pass_tables (l : list TradeDict) w :
  users (store (foldl (pass_step c g ev) w l)) = users (store w)
  ∧ subscriptions (store (foldl (pass_step c g ev) w l)) = subscriptions (store w)
  ∧ exchanges (store (foldl (pass_step c g ev) w l)) = exchanges (store w).
Proof.
  revert w. induction l as [|a l IH]; intros w; cbn [foldl]; [done|].
  destruct (IH (pass_step c g ev w a)) as (-> & -> & ->).
  unfold pass_step. cbn [store]. by destruct (c a).
Qed.

(** A pass does not touch a position it does not iterate over, and such
    a position is not iterated over by the next pass either. *)
Lemma pass_unmanaged w i :
  i ∉ td_id <$> get_open_trades (store w) →
  let w' := foldl (pass_step c g ev) w (get_open_trades (store w)) in
  trade_executions (store w') !! i = trade_executions (store w) !! i
  ∧ i ∉ td_id <$> get_open_trades (store w').
Proof.
  intros Hi w'. assert (trade_executions (store w') !! i
                        = trade_executions (store w) !! i) as Hrow
    by by apply foldl_pass_absent.
  split; [done|]. intros (r & s & Hr & Hopen & Hs)%managed_iff. apply Hi.
  apply managed_iff. exists r, s. rewrite <- Hrow. split; [done|]. split; [done|].
  unfold w' in Hs. by rewrite foldl_pass_signals in Hs.
Qed.

Lemma pass_closes_managed w i :
  (∀ t, adapter_closes (ev t) = [] ∨ adapter_closes (ev t) = [td_id t]) →
  i ∈ adapter_closes (concat (ev <$> get_open_trades (store w))) →
  i ∈ td_id <$> get_open_trades (store w).
Proof.
  intros Hev. induction (get_open_trades (store w)) as [|t l IH].
  - by intros ?%elem_of_nil.
  - cbn [fmap list_fmap concat]. rewrite adapter_closes_app, elem_of_app.
    intros [Hin|Hin]; [|apply elem_of_cons; right; by apply IH].
    destruct (Hev t) as [E|E]; rewrite E in Hin; [by apply elem_of_nil in Hin|].
    apply list_elem_of_singleton in Hin. subst. apply elem_of_cons. by left.
Qed.

End one_pass.

Lemma sl_events_closes cx t :
  adapter_closes (sl_events cx t) = [] ∨ adapter_closes (sl_events cx t) = [td_id t].
Proof. rewrite adapter_closes_sl. destruct (sl_fires cx t); auto. Qed.

Lemma tp_events_closes cx t :
  adapter_closes (tp_events cx t) = [] ∨ adapter_closes (tp_events cx t) = [td_id t].
Proof. rewrite adapter_closes_tp. destruct (tp_fires cx t); auto. Qed.

Lemma cycle_unmanaged cx now st i :
  i ∉ td_id <$> get_open_trades st →
  let w := exec (AutoTrader.trading_cycle cx now) (world_of st) in
  trade_executions (store w) !! i = trade_executions st !! i
  ∧ i ∉ adapter_closes (log w).
Proof.
  intros Hi w. unfold w, exec. rewrite trading_cycle_run. cbn [snd].
  set (w1 := foldl _ (world_of st) _). set (w2 := foldl _ w1 _).
  destruct (pass_unmanaged (repriced cx) (reprice cx)
              (λ t, quote_events cx (td_exchange_name t) (td_symbol t))
              (world_of st) i Hi) as [Hr1 Hi1]. fold w1 in Hr1, Hi1.
  destruct (pass_unmanaged (sl_fires cx) (λ _, closed_at_price now 0 0) (sl_events cx)
              w1 i Hi1) as [Hr2 Hi2]. fold w2 in Hr2, Hi2.
  destruct (pass_unmanaged (tp_fires cx) (λ _, closed_at_price now 0 0) (tp_events cx)
              w2 i Hi2) as [Hr3 _].
  split; [by rewrite Hr3, Hr2, Hr1|].
  rewrite foldl_pass_log, adapter_closes_app, elem_of_app. intros [Hin|Hin].
  - unfold w2 in Hin. rewrite foldl_pass_log, adapter_closes_app, elem_of_app in Hin.
    destruct Hin as [Hin|Hin].
    + unfold w1 in Hin. rewrite foldl_pass_log, adapter_closes_app in Hin.
      rewrite adapter_closes_none in Hin by (intros; apply adapter_closes_quote).
      by apply elem_of_nil in Hin.
    + apply Hi1. by apply (pass_closes_managed (sl_events cx) w1 i (sl_events_closes cx)).
  - apply Hi2. by apply (pass_closes_managed (tp_events cx) w2 i (tp_events_closes cx)).
Qed.

Lemma cycle_tables cx now st :
  let w := exec (AutoTrader.trading_cycle cx now) (world_of st) in
  signals (store w) = signals st ∧ users (store w) = users st
  ∧ subscriptions (store w) = subscriptions st ∧ exchanges (store w) = exchanges st.
Proof.
  intros w. unfold w, exec. rewrite trading_cycle_run. cbn [snd].
  rewrite !foldl_pass_signals.
  repeat match goal with
  | |- context [foldl (pass_step ?c ?g ?ev) ?w ?l] =>
      let H := fresh in
      destruct (foldl_pass_tables c g ev l w) as (H & ? & ?);
      rewrite H; clear H
  end.
  split; [done|].
  repeat match goal with H : _ = _ |- _ => rewrite H; clear H end. done.
Qed.

(** A monitoring cycle changes nothing but the rows of the positions it
    manages. It writes to no other table; a position that is not open
    when the cycle starts keeps its row, and so does an open position whose
    signal row is missing, which is never repriced and never closed
    although [get_active_trades] lists it; no row appears or disappears. *)
Theorem cycle_touches_only_managed_positions cx now st :
  let w := exec (AutoTrader.trading_cycle cx now) (world_of st) in
  signals (store w) = signals st ∧ users (store w) = users st
  ∧ subscriptions (store w) = subscriptions st ∧ exchanges (store w) = exchanges st
  ∧ (∀ i, is_Some (trade_executions (store w) !! i) ↔ is_Some (trade_executions st !! i))
  ∧ (∀ i r, trade_executions st !! i = Some r → tr_status r ≠ "open" →
       trade_executions (store w) !! i = Some r)
  ∧ (∀ i r, trade_executions st !! i = Some r → tr_status r = "open" →
       signals st !! tr_signal_id r = None →
       active_trade_dict (i, r) ∈ get_active_trades st
       ∧ trade_executions (store w) !! i = Some r
       ∧ i ∉ adapter_closes (log w)).
Proof.
  intros w. destruct (cycle_tables cx now st) as (Hsig & Hus & Hsub & Hex).
  fold w in Hsig, Hus, Hsub, Hex. do 4 (split; [done|]). split; [|split].
  - intros i. destruct (decide (i ∈ td_id <$> get_open_trades st)) as [Hi|Hi].
    + apply managed_iff in Hi as (r & s & Hr & Hopen & Hs).
      destruct (trading_cycle_row cx now st i r s Hr Hopen Hs) as (Hrow & _).
      fold w in Hrow. rewrite Hrow, Hr. split; eauto.
    + destruct (cycle_unmanaged cx now st i Hi) as [Hrow _]. fold w in Hrow.
      by rewrite Hrow.
  - intros i r Hr Hclosed.
    assert (i ∉ td_id <$> get_open_trades st) as Hi.
    { intros (r' & s & Hr' & Hopen & _)%managed_iff. congruence. }
    destruct (cycle_unmanaged cx now st i Hi) as [Hrow _]. fold w in Hrow.
    by rewrite Hrow.
  - intros i r Hr Hopen Hs.
    assert (i ∉ td_id <$> get_open_trades st) as Hi.
    { intros (r' & s & Hr' & _ & Hs')%managed_iff.
      rewrite Hr in Hr'. injection Hr' as <-. congruence. }
    destruct (cycle_unmanaged cx now st i Hi) as [Hrow Hlog]. fold w in Hrow, Hlog.
    split; [|split; [by rewrite Hrow|done]].
    apply elem_of_get_active_trades. by exists i, r.
Qed.

Lemma unquoted_never_fires cx t :
  truthy (quoted cx (td_exchange_name t) (td_symbol t)) = false →
  repriced cx t = false ∧ sl_fires cx t = false ∧ tp_fires cx t = false.
Proof.
  intros Hq. unfold repriced, sl_fires, tp_fires. rewrite Hq.
  by rewrite !andb_false_r.
Qed.

(** A position for which no usable price comes back, because its venue is
    not one of the five the adapter knows, because the ticker request
    failed, or because the ticker carried no last price or the price 0,
    is left exactly as it was by a monitoring cycle: it is neither repriced
    nor closed, whatever its stop-loss and take-profit. *)
Theorem unquoted_position_is_left_alone cx now st i r s :
  trade_executions st !! i = Some r → tr_status r = "open" →
  signals st !! tr_signal_id r = Some s →
  tr_exchange_name r ∉ FuturesTrader.supported_venues
  ∨ (∃ e, FuturesTrader.fetch_ticker cx (tr_exchange_name r) (tr_symbol r) = inl e)
  ∨ FuturesTrader.fetch_ticker cx (tr_exchange_name r) (tr_symbol r) = inr None
  ∨ FuturesTrader.fetch_ticker cx (tr_exchange_name r) (tr_symbol r) = inr (Some 0%Qc) →
  let w := exec (AutoTrader.trading_cycle cx now) (world_of st) in
  trade_executions (store w) !! i = Some r
  ∧ i ∉ adapter_closes (log w).
Proof.
  intros Hr Hopen Hs Hprice w.
  assert (truthy (quoted cx (tr_exchange_name r) (tr_symbol r)) = false) as Hq.
  { unfold quoted. destruct Hprice as [Hv|[[e He]|[He|He]]].
    - by rewrite bool_decide_eq_false_2.
    - rewrite He. by case_bool_decide.
    - rewrite He. by case_bool_decide.
    - rewrite He. by case_bool_decide. }
  destruct (unquoted_never_fires cx (joined i r s) Hq) as (Hrep & Hsl & Htp).
  destruct (trading_cycle_row cx now st i r s Hr Hopen Hs) as (Hrow & Hlog).
  fold w in Hrow, Hlog. rewrite Hrep, Hsl, Htp in Hrow. rewrite Hsl, Htp in Hlog.
  split; [done|]. intros Hin. apply Hlog in Hin. discriminate Hin.
Qed.

Lemma unquoted_position_is_left_alone_witness :
  trade_executions
    (store (exec (AutoTrader.trading_cycle Scenario.unreachable_venue 10)
              (world_of Scenario.long_store))) !! 1
  = Some Scenario.long_row.
Proof.
  refine (proj1 (unquoted_position_is_left_alone Scenario.unreachable_venue 10
                   Scenario.long_store 1 Scenario.long_row Scenario.long_signal
                   eq_refl eq_refl eq_refl _)).
  right. left. by eexists.
Defined.

(** ** The adapter *)

Lemma preserves_ret {A} (a : A) : preserves_store (mret a).
Proof. by intros w. Qed.

Lemma preserves_throw {A} (e : Exc) : preserves_store (throw (A := A) e).
Proof. by intros w. Qed.

Lemma preserves_lift {A} (r : Result A) : preserves_store (lift r).
Proof. by intros w. Qed.

Lemma preserves_emit ev : preserves_store (emit ev).
Proof. by intros w. Qed.

Lemma preserves_gets {A} (f : Store → A) : preserves_store (gets f).
Proof. by intros w. Qed.

Lemma preserves_bind {A B} (m : M A) (k : A → M B) :
  preserves_store m → (∀ a, preserves_store (k a)) → preserves_store (m ≫= k).
Proof.
  intros Hm Hk w. unfold mbind, M_bind. specialize (Hm w).
  destruct (m w) as [[e|a] w']; cbn [snd] in *; [done|].
  by rewrite Hk.
Qed.

Lemma preserves_try {A} (body : M A) (handler : Exc → M A) :
  preserves_store body → (∀ e, preserves_store (handler e)) →
  preserves_store (try_catch body handler).
Proof.
  intros Hm Hk w. unfold try_catch. specialize (Hm w).
  destruct (body w) as [[e|a] w']; cbn [snd] in *; [|done].
  by rewrite Hk.
Qed.

Lemma preserves_for_each {A} (l : list A) (body : A → M ()) :
  (∀ a, preserves_store (body a)) → preserves_store (for_each l body).
Proof.
  intros Hbody. induction l as [|a l IH]; cbn [for_each]; [apply preserves_ret|].
  apply preserves_bind; [apply Hbody|by intros _].
Qed.

Lemma never_raises_try {A} (body : M A) (handler : Exc → M A) :
  (∀ e, never_raises (handler e)) → never_raises (try_catch body handler).
Proof.
  intros Hk w. unfold try_catch. destruct (body w) as [[e|a] w']; [apply Hk|].
  by exists a.
Qed.


(** Break a computation of the adapter into its steps. *)
Ltac step_by_step :=
  repeat first
    [ apply preserves_ret | apply preserves_throw | apply preserves_lift
    | apply preserves_emit | apply preserves_gets
    | apply preserves_try; [|intros ?]
    | apply preserves_bind; [|intros ?]
    | apply preserves_for_each; intros ?
    | match goal with
      | |- preserves_store (if ?b then _ else _) => destruct b
      | |- preserves_store (match ?x with _ => _ end) => destruct x
      | |- preserves_store (let '(_, _) := ?x in _) => destruct x
      end ].

Lemma decrypt_credentials_preserves `{Fernet} key secret passphrase :
  preserves_store (decrypt_credentials key secret passphrase).
Proof. unfold decrypt_credentials, fernet_decrypt. step_by_step. Qed.

Lemma get_exchange_client_preserves name key secret passphrase :
  preserves_store (FuturesTrader.get_exchange_client name key secret passphrase).
Proof. unfold FuturesTrader.get_exchange_client. step_by_step. Qed.

Lemma get_balance_preserves cx exchange :
  preserves_store (FuturesTrader.get_balance cx exchange).
Proof. unfold FuturesTrader.get_balance. step_by_step. Qed.

Lemma set_leverage_preserves cx exchange symbol leverage :
  preserves_store (FuturesTrader.set_leverage cx exchange symbol leverage).
Proof. unfold FuturesTrader.set_leverage. step_by_step. Qed.

Lemma set_stop_loss_preserves cx exchange symbol side quantity price :
  preserves_store (FuturesTrader.set_stop_loss cx exchange symbol side quantity price).
Proof. unfold FuturesTrader.set_stop_loss. step_by_step. Qed.

Lemma set_take_profit_preserves cx exchange symbol side quantity price :
  preserves_store (FuturesTrader.set_take_profit cx exchange symbol side quantity price).
Proof. unfold FuturesTrader.set_take_profit. step_by_step. Qed.

Lemma execute_trade_preserves `{Fernet} cx exchange_config signal user :
  preserves_store (FuturesTrader.execute_trade cx exchange_config signal user).
Proof.
  unfold FuturesTrader.execute_trade, FuturesTrader.number, FuturesTrader.divide.
  apply preserves_try; [|intros ?; step_by_step].
  apply preserves_bind; [apply decrypt_credentials_preserves|intros [[k sec] pass]].
  apply preserves_bind; [apply get_exchange_client_preserves|intros exchange].
  apply preserves_bind; [apply get_balance_preserves|intros balance].
  apply preserves_bind; [step_by_step|intros percent].
  apply preserves_bind; [step_by_step|intros balance'].
  apply preserves_bind; [step_by_step|intros leverage].
  apply preserves_bind; [step_by_step|intros quantity].
  apply preserves_bind; [apply set_leverage_preserves|intros _].
  apply preserves_bind; [step_by_step|intros _].
  apply preserves_bind; [step_by_step|intros order].
  apply preserves_bind.
  { destruct (truthy _); [apply set_stop_loss_preserves|apply preserves_ret]. }
  intros _. apply preserves_bind.
  { destruct (truthy _); [apply set_take_profit_preserves|apply preserves_ret]. }
  intros _. apply preserves_ret.
Qed.



Lemma decrypt_credentials_run `{Fernet} exchange_config w :
  decrypt_credentials (ed_api_key_encrypted exchange_config)
    (ed_api_secret_encrypted exchange_config)
    (ed_passphrase_encrypted exchange_config) w
  = match decrypted exchange_config with
    | Some credentials => (inr credentials, w)
    | None => (inl InvalidToken,
               logged [LogError "Decryption error" None InvalidToken] w)
    end.
Proof.
  unfold decrypt_credentials, decrypted, try_catch, fernet_decrypt, mbind, M_bind.
  destruct (decrypt (ed_api_key_encrypted exchange_config)); [|done].
  cbn [mret M_ret option_bind].
  destruct (decrypt (ed_api_secret_encrypted exchange_config)); [|done].
  cbn [mret M_ret option_bind].
  destruct (truthy_str (ed_passphrase_encrypted exchange_config)); [|done].
  by destruct (decrypt (default "" (ed_passphrase_encrypted exchange_config))).
Qed.

Lemma get_exchange_client_run name key secret passphrase w :
  FuturesTrader.get_exchange_client name key secret passphrase w
  = (inl (client_error name),
     logged [LogError "Error creating exchange client" None (client_error name)] w).
Proof.
  unfold FuturesTrader.get_exchange_client, client_error, try_catch.
  by case_bool_decide.
Qed.

(** [execute_trade] on a stored connection: the credentials do not
    decrypt, or the client cannot be built. *)
Lemma execute_trade_run `{Fernet} cx exchange_config signal user w :
  FuturesTrader.execute_trade cx exchange_config signal user w
  = (inr (FuturesTrader.TradeFailed (trade_error exchange_config)),
     logged (trade_events exchange_config) w).
Proof.
  unfold FuturesTrader.execute_trade, trade_events, trade_error, try_catch.
  unfold mbind at 1, M_bind at 1. rewrite decrypt_credentials_run.
  destruct (decrypted exchange_config) as [[[key secret] passphrase]|].
  - unfold mbind at 1, M_bind at 1. rewrite get_exchange_client_run.
    unfold emit, mbind, M_bind, mret, M_ret, logged. cbn.
    by rewrite <- app_assoc.
  - unfold emit, mbind, M_bind, mret, M_ret, logged. cbn.
    by rewrite <- app_assoc.
Qed.

Lemma requests_of_app l1 l2 :
  requests_of (l1 ++ l2) = (requests_of l1 ++ requests_of l2)%list.
Proof. apply filter_app. Qed.

Lemma requests_of_trade_events `{Fernet} exchange_config :
  requests_of (trade_events exchange_config) = [].
Proof. reflexivity. Qed.

(** When a credential does not decrypt, or the venue is not one the
    adapter knows, [execute_trade] answers with a failure before anything
    is sent to an exchange: the log gains error entries only. *)
Theorem execute_trade_fails_before_any_request `{Fernet} cx exchange_config signal
    user w :
  decrypted exchange_config = None
  ∨ ed_exchange_name exchange_config ∉ FuturesTrader.supported_venues →
  ∃ e l,
    FuturesTrader.execute_trade cx exchange_config signal user w
    = (inr (FuturesTrader.TradeFailed e), logged l w)
    ∧ requests_of l = []
    ∧ (e = InvalidToken ∨ e = ValueError "Unsupported exchange").
Proof.
  intros Hfail. eexists _, _. split; [apply execute_trade_run|].
  split; [apply requests_of_trade_events|].
  unfold trade_error, client_error.
  destruct (decrypted exchange_config) as [credentials|]; [|by left].
  destruct Hfail as [?|Hvenue]; [done|].
  right. by rewrite bool_decide_eq_false_2.
Qed.

Lemma execute_trade_fails_before_any_request_witness :
  ∃ e l,
    @FuturesTrader.execute_trade Scenario.toy_fernet (Scenario.venue None 0)
      Cases.corrupt_exchange Scenario.btc_dict Cases.second_user
      (world_of Scenario.three_users)
    = (inr (FuturesTrader.TradeFailed e), logged l (world_of Scenario.three_users))
    ∧ requests_of l = [].
Proof.
  destruct (@execute_trade_fails_before_any_request Scenario.toy_fernet
              (Scenario.venue None 0) Cases.corrupt_exchange Scenario.btc_dict
              Cases.second_user (world_of Scenario.three_users) (or_introl eq_refl))
    as (e & l & Hrun & Hreq & _).
  by exists e, l.
Defined.

(** [execute_trade] never reports a success. Whatever the vault, the venue
    and the stored connection, it answers with a failure and sends nothing
    to an exchange: the credentials do not decrypt, or the venue is
    unknown, or, for a known venue with good credentials, building the
    client raises [AttributeError] because [Config] has no [TESTNET_MODE].
    The balance is never requested and no order is placed. *)
Theorem execute_trade_never_succeeds `{Fernet} cx exchange_config signal user w :
  ∃ e l,
    FuturesTrader.execute_trade cx exchange_config signal user w
    = (inr (FuturesTrader.TradeFailed e), logged l w)
    ∧ requests_of l = []
    ∧ (e = InvalidToken ∨ e = AttributeError "Config" "TESTNET_MODE"
       ∨ e = ValueError "Unsupported exchange")
    ∧ (is_Some (decrypted exchange_config) →
       ed_exchange_name exchange_config ∈ FuturesTrader.supported_venues →
       e = AttributeError "Config" "TESTNET_MODE").
Proof.
  eexists _, _. split; [apply execute_trade_run|].
  split; [apply requests_of_trade_events|].
  unfold trade_error, client_error. split.
  - destruct (decrypted exchange_config) as [credentials|]; [|by left].
    case_bool_decide; auto.
  - intros [credentials ->] Hvenue. by rewrite bool_decide_eq_true_2.
Qed.

(** One iteration of [AutoTrader.execute_signal_trade]. *)
Lemma recording_step_run `{Fernet} cx now user signal exchange w :
  (if negb (FuturesTrader.auto_trade_on exchange) then mret ()
   else
     result ← FuturesTrader.execute_trade cx exchange signal user;
     match result with
     | FuturesTrader.TradeOk _ entry_price quantity _ =>
         _ ← modify (create_trade now (ud_id user) (ed_id exchange)
                       (sd_id signal) (sd_symbol signal) (sd_action signal)
                       entry_price quantity (sd_stop_loss signal)
                       (sd_take_profit signal) (sd_leverage signal));
         emit (LogInfo "Trade executed for user" (Some (ud_id user)))
     | FuturesTrader.TradeFailed _ => mret ()
     end) w
  = (inr (), logged (recording_events exchange) w).
Proof.
  unfold recording_events. destruct (FuturesTrader.auto_trade_on exchange); cbn [negb].
  - unfold mbind, M_bind. by rewrite execute_trade_run.
  - by rewrite logged_nil.
Qed.

Lemma foldl_logged_events {A} (f : A → list Event) (l : list A) w :
  foldl (λ w a, logged (f a) w) w l = logged (concat (f <$> l)) w.
Proof.
  revert w. induction l as [|a l IH]; intros w; cbn [foldl fmap list_fmap concat].
  - by rewrite logged_nil.
  - by rewrite IH, logged_logged.
Qed.

Lemma requests_of_concat {A} (f : A → list Event) (l : list A) :
  (∀ a, requests_of (f a) = []) → requests_of (concat (f <$> l)) = [].
Proof.
  intros Hf. induction l as [|a l IH]; [done|].
  cbn [fmap list_fmap concat]. by rewrite requests_of_app, Hf, IH.
Qed.

(** [AutoTrader.execute_signal_trade] records no position: for every user,
    signal, vault and venue behaviour it leaves the store as it was and
    sends nothing to an exchange; all it does is log, for each connection
    of the user with automatic trading on, the two errors of the failed
    [execute_trade]. *)
Theorem recording_variant_stores_nothing `{Fernet} cx now user signal w :
  AutoTrader.execute_signal_trade cx now user signal w
  = (inr (),
     logged (concat (recording_events <$> get_user_exchanges (store w) (ud_id user))) w)
  ∧ store (exec (AutoTrader.execute_signal_trade cx now user signal) w) = store w
  ∧ requests_of (concat (recording_events <$> get_user_exchanges (store w) (ud_id user)))
    = [].
Proof.
  assert (AutoTrader.execute_signal_trade cx now user signal w
          = (inr (),
             logged (concat (recording_events
                               <$> get_user_exchanges (store w) (ud_id user))) w))
    as Hrun.
  { unfold AutoTrader.execute_signal_trade, try_catch, mbind at 1, M_bind at 1, gets.
    rewrite (for_each_run _ (λ w a, logged (recording_events a) w) _
               (recording_step_run cx now user signal)).
    by rewrite foldl_logged_events. }
  split; [exact Hrun|]. split; [unfold exec; by rewrite Hrun|].
  apply requests_of_concat. intros exchange. unfold recording_events.
  by destruct (FuturesTrader.auto_trade_on exchange).
Qed.

(** ** OAuth state tokens *)

Lemma foldl_delete_lookup {A} (l : list string) (m : gmap string A) k :
  foldl (λ sessions state, delete state sessions) m l !! k
  = if bool_decide (k ∈ l) then None else m !! k.
Proof.
  revert m. induction l as [|a l IH]; intros m; cbn [foldl].
  - rewrite bool_decide_eq_false_2; [done|apply not_elem_of_nil].
  - rewrite IH. destruct (decide (k = a)) as [->|Hne].
    + rewrite lookup_delete_eq. rewrite (bool_decide_eq_true_2 (a ∈ a :: l));
        [by case_bool_decide|apply elem_of_cons; by left].
    + rewrite lookup_delete_ne by done.
      case_bool_decide as Hl.
      * rewrite bool_decide_eq_true_2; [done|apply elem_of_cons; by right].
      * rewrite bool_decide_eq_false_2; [done|].
        intros [?|?]%elem_of_cons; [by subst|done].
Qed.

Lemma elem_of_expired_sessions now (sessions : gmap string OAuth.Session) k :
  k ∈ (filter (λ kv : string * OAuth.Session, (OAuth.se_expires_at kv.2 < now)%Z)
         (map_to_list sessions)).*1
  ↔ ∃ d, sessions !! k = Some d ∧ expired now d = true.
Proof.
  rewrite list_elem_of_fmap. split.
  - intros ([k' d] & -> & [Hexp Hin%elem_of_map_to_list]%list_elem_of_filter).
    exists d. split; [done|]. by apply bool_decide_eq_true_2.
  - intros (d & Hd & Hexp%bool_decide_eq_true_1). exists (k, d). split; [done|].
    apply list_elem_of_filter. split; [done|]. by apply elem_of_map_to_list.
Qed.

Lemma cleanup_lookup now sessions state :
  OAuth.cleanup_expired_sessions now sessions !! state
  = d ← sessions !! state; if expired now d then None else Some d.
Proof.
  unfold OAuth.cleanup_expired_sessions. rewrite foldl_delete_lookup.
  case_bool_decide as Hin.
  - apply elem_of_expired_sessions in Hin as (d & -> & Hexp). cbn. by rewrite Hexp.
  - destruct (sessions !! state) as [d|] eqn:Hd; [|done]. cbn.
    destruct (expired now d) eqn:Hexp; [|done].
    exfalso. apply Hin, elem_of_expired_sessions. by exists d.
Qed.

(** A state token made by [_generate_state_token] is accepted by
    [validate_state_token] up to and including the 600th second after it
    was made, with the user and the exchange it was made for; from the next
    second on it is refused, and the refusal removes it from the sessions.
    The check leaves every other session as it was. *)
Theorem state_token_lasts_ten_minutes encode now now' nonce user_id exchange
    sessions t :
  let made := OAuth._generate_state_token encode now now' nonce user_id exchange
                sessions in
  let session_data :=
    {| OAuth.se_data := {| OAuth.st_user_id := user_id; OAuth.st_exchange := exchange;
                           OAuth.st_timestamp := now; OAuth.st_nonce := nonce |};
       OAuth.se_expires_at := now' + 600 |} in
  let checked := OAuth.validate_state_token t made.1 made.2 in
  checked.1 = (if bool_decide (t ≤ now' + 600)%Z then Some session_data else None)
  ∧ checked.2 !! made.1 = checked.1
  ∧ ∀ other, other ≠ made.1 → checked.2 !! other = sessions !! other.
Proof.
  intros made session_data checked. unfold checked, made.
  unfold OAuth.validate_state_token, OAuth._generate_state_token. cbn [fst snd].
  rewrite lookup_insert_eq. cbn [OAuth.se_expires_at].
  case_bool_decide as Hlt.
  - rewrite bool_decide_eq_false_2 by lia. cbn [fst snd].
    split; [done|]. split; [apply lookup_delete_eq|].
    intros other Hne. rewrite lookup_delete_ne by done. by apply lookup_insert_ne.
  - rewrite bool_decide_eq_true_2 by lia. cbn [fst snd].
    split; [done|]. split; [apply lookup_insert_eq|].
    intros other Hne. by apply lookup_insert_ne.
Qed.

(** [cleanup_expired_sessions] removes exactly the sessions whose expiry
    time lies before the current time and keeps the others unchanged; after
    it, [validate_state_token] at the same time refuses only the states
    that have no session and removes nothing. *)
Theorem cleanup_removes_exactly_the_expired now sessions state :
  let cleaned := OAuth.cleanup_expired_sessions now sessions in
  cleaned !! state = (d ← sessions !! state; if expired now d then None else Some d)
  ∧ OAuth.validate_state_token now state cleaned = (cleaned !! state, cleaned).
Proof.
  intros cleaned. pose proof (cleanup_lookup now sessions state) as Hl.
  fold cleaned in Hl. split; [done|].
  unfold OAuth.validate_state_token.
  destruct (cleaned !! state) as [d|] eqn:Hd; [|done].
  destruct (sessions !! state) as [d'|]; [|done]. cbn in Hl.
  destruct (expired now d') eqn:Hexp; [done|]. injection Hl as <-.
  unfold expired in Hexp. by rewrite Hexp.
Qed.

(** [handle_oauth_callback] uses a state once: whatever the token end point
    answered, the state is gone afterwards and a second callback with it
    raises [ValueError]; the other sessions are untouched. The expiry time
    of the session is not consulted: a state that [validate_state_token]
    refuses as expired is still exchanged for tokens. *)
Theorem oauth_state_is_single_use exchange_code code code' state sessions :
  let first := OAuth.handle_oauth_callback exchange_code code state sessions in
  first.2 !! state = None
  ∧ OAuth.handle_oauth_callback exchange_code code' state first.2
    = (raise (ValueError "Invalid or expired state token"), first.2)
  ∧ (∀ other, other ≠ state → first.2 !! other = sessions !! other)
  ∧ (∀ d now, sessions !! state = Some d → expired now d = true →
       (OAuth.validate_state_token now state sessions).1 = None
       ∧ first.1
         = if bool_decide (OAuth.st_exchange (OAuth.se_data d) ∈ ["kucoin"; "bybit"; "okx"])
           then exchange_code (OAuth.st_exchange (OAuth.se_data d)) code
                  (OAuth.st_user_id (OAuth.se_data d))
           else raise (ValueError "OAuth not supported")).
Proof.
  intros first.
  assert (first.2 !! state = None) as Hgone.
  { unfold first, OAuth.handle_oauth_callback.
    destruct (sessions !! state) as [d|] eqn:Hd; cbn [snd]; [apply lookup_delete_eq|done]. }
  split; [done|]. split.
  { unfold OAuth.handle_oauth_callback at 1. by rewrite Hgone. }
  split.
  - intros other Hne. unfold first, OAuth.handle_oauth_callback.
    destruct (sessions !! state) as [d|]; cbn [snd]; [|done].
    by apply lookup_delete_ne.
  - intros d now Hd Hexp. unfold first, OAuth.validate_state_token,
      OAuth.handle_oauth_callback. rewrite Hd. unfold expired in Hexp.
    by rewrite Hexp.
Qed.

Lemma oauth_state_is_single_use_witness :
  (OAuth.validate_state_token 2000 "n1" Cases.one_session.2).1 = None
  ∧ (OAuth.handle_oauth_callback Cases.exchange_code "code" "n1" Cases.one_session.2).1
    = inr "kucoin".
Proof.
  exact (proj2 (proj2 (proj2
           (oauth_state_is_single_use Cases.exchange_code "code" "code" "n1"
              Cases.one_session.2)))
           {| OAuth.se_data := {| OAuth.st_user_id := 7; OAuth.st_exchange := "kucoin";
                                  OAuth.st_timestamp := 1000; OAuth.st_nonce := "n1" |};
              OAuth.se_expires_at := 1600 |} 2000 eq_refl eq_refl).
Defined.

(** ** Subscriptions *)

Lemma elem_of_get_subscribed_users st u :
  u ∈ get_subscribed_users st
  ↔ ∃ k urow j s,
      users st !! k = Some urow ∧ subscriptions st !! j = Some s
      ∧ sb_user_id s = k ∧ sb_is_subscribed s = true
      ∧ has_active_exchange st k = true ∧ u = user_dict k urow s.
Proof.
  unfold get_subscribed_users. rewrite elem_of_remove_dups, list_elem_of_In, in_flat_map.
  split.
  - intros ([k urow] & Hu%list_elem_of_In%elem_of_map_to_list
            & Hin%list_elem_of_In%list_elem_of_omap).
    destruct Hin as ([j s] & Hs%elem_of_map_to_list & Hsome). cbn [fst snd] in Hsome.
    destruct (bool_decide (sb_user_id s = k)) eqn:Hk; [|done].
    destruct (sb_is_subscribed s) eqn:Hsub; [|done].
    destruct (has_active_exchange st k) eqn:Hact; [|done].
    cbn [andb] in Hsome. injection Hsome as <-.
    apply bool_decide_eq_true_1 in Hk. by exists k, urow, j, s.
  - intros (k & urow & j & s & Hu & Hs & Hk & Hsub & Hact & ->).
    exists (k, urow). split; [by apply list_elem_of_In, elem_of_map_to_list|].
    apply list_elem_of_In, list_elem_of_omap. exists (j, s).
    split; [by apply elem_of_map_to_list|]. cbn [fst snd].
    rewrite Hsub, Hact. by rewrite bool_decide_eq_true_2.
Qed.

Lemma update_subscription_lookup user_id is_subscribed auto_trade st j :
  subscriptions (UserModel.update_subscription user_id is_subscribed auto_trade st) !! j
  = (λ s, if bool_decide (sb_user_id s = user_id)
          then UserModel.with_flags is_subscribed auto_trade s else s)
    <$> subscriptions st !! j.
Proof. unfold UserModel.update_subscription. cbn. apply lookup_fmap. Qed.

(** [update_subscription] decides who [get_subscribed_users] lists: a
    user whose subscription was updated is listed only when it was switched
    on, and then with the automatic-trading flag of the update; the listing
    of every other user is as before. A user with a user row, a
    subscription row and an active exchange is listed once the subscription
    is switched on. *)
Theorem update_subscription_governs_listing user_id is_subscribed auto_trade st :
  let st' := UserModel.update_subscription user_id is_subscribed auto_trade st in
  (∀ u, u ∈ get_subscribed_users st' → ud_id u = user_id →
        is_subscribed = true ∧ ud_auto_trade u = auto_trade)
  ∧ (∀ u, ud_id u ≠ user_id →
          u ∈ get_subscribed_users st' ↔ u ∈ get_subscribed_users st)
  ∧ (∀ urow j s, users st !! user_id = Some urow → subscriptions st !! j = Some s →
       sb_user_id s = user_id → has_active_exchange st user_id = true →
       is_subscribed = true →
       user_dict user_id urow (UserModel.with_flags true auto_trade s)
       ∈ get_subscribed_users st').
Proof.
  intros st'. split; [|split].
  - intros u (k & urow & j & s' & Hu & Hs & Hk & Hsub & Hact & ->)%elem_of_get_subscribed_users
      Hid. cbn [user_dict ud_id] in Hid. subst k.
    unfold st' in Hs. rewrite update_subscription_lookup in Hs.
    destruct (subscriptions st !! j) as [s|]; [|done]. cbn in Hs. injection Hs as <-.
    case_bool_decide as Hs; [|done].
    cbn [UserModel.with_flags sb_is_subscribed] in Hsub. by subst.
  - intros u Hid. rewrite !elem_of_get_subscribed_users. split.
    + intros (k & urow & j & s' & Hu & Hs & Hk & Hsub & Hact & ->).
      cbn [user_dict ud_id] in Hid.
      unfold st' in Hs. rewrite update_subscription_lookup in Hs.
      destruct (subscriptions st !! j) as [s|] eqn:Hj; [|done]. cbn in Hs.
      injection Hs as <-.
      case_bool_decide as Hs.
      { cbn [UserModel.with_flags sb_user_id] in Hk. congruence. }
      by exists k, urow, j, s.
    + intros (k & urow & j & s & Hu & Hs & Hk & Hsub & Hact & ->).
      cbn [user_dict ud_id] in Hid.
      exists k, urow, j, s. split; [done|]. split; [|done].
      unfold st'. rewrite update_subscription_lookup, Hs. cbn.
      rewrite bool_decide_eq_false_2; [done|congruence].
  - intros urow j s Hu Hs Hk Hact ->. apply elem_of_get_subscribed_users.
    exists user_id, urow, j, (UserModel.with_flags true auto_trade s).
    split; [done|]. split; [|done].
    unfold st'. rewrite update_subscription_lookup, Hs. cbn.
    by rewrite bool_decide_eq_true_2.
Qed.

Lemma update_subscription_governs_listing_witness :
  user_dict 2 (Scenario.user 102)
    (UserModel.with_flags true false (Scenario.subscription 2))
  ∈ get_subscribed_users (UserModel.update_subscription 2 true false Scenario.three_users).
Proof.
  exact (proj2 (proj2 (update_subscription_governs_listing 2 true false
                         Scenario.three_users))
           (Scenario.user 102) 2 (Scenario.subscription 2)
           eq_refl eq_refl eq_refl eq_refl eq_refl).
Defined.

(** ** Stored credentials *)

Lemma elem_of_get_user_exchanges st user_id d :
  d ∈ get_user_exchanges st user_id
  ↔ ∃ i e, exchanges st !! i = Some e ∧ ex_user_id e = user_id
           ∧ ex_is_active e = true ∧ d = exchange_dict (i, e).
Proof.
  unfold get_user_exchanges. rewrite list_elem_of_fmap. split.
  - intros ([i e] & -> & [[Hu Ha] Hin%elem_of_map_to_list]%list_elem_of_filter).
    by exists i, e.
  - intros (i & e & Hin & Hu & Ha & ->). exists (i, e). split; [done|].
    apply list_elem_of_filter. split; [done|]. by apply elem_of_map_to_list.
Qed.

(** Credentials encrypted by [encrypt_credentials] and stored by
    [add_exchange] come back from [get_user_exchanges] of that user as an
    active connection under a fresh id, and [decrypt_credentials] on its
    three stored columns gives the key, the secret and the passphrase that
    were entered. The connections already stored are listed as before, for
    every user. *)
Theorem stored_credentials_come_back `{Fernet} ivs api_key api_secret passphrase
    user_id exchange_name connection_type leverage st w encrypted :
  (encrypt_credentials ivs api_key api_secret passphrase w).1 = inr encrypted →
  let added := ExchangeModel.add_exchange user_id exchange_name encrypted.1.1
                 encrypted.1.2 encrypted.2 connection_type leverage st in
  exchanges st !! added.1 = None
  ∧ (∃ d, d ∈ get_user_exchanges added.2 user_id ∧ ed_id d = added.1
          ∧ ed_exchange_name d = exchange_name ∧ ed_leverage d = Some leverage
          ∧ ∀ w', decrypt_credentials (ed_api_key_encrypted d)
                    (ed_api_secret_encrypted d) (ed_passphrase_encrypted d) w'
                  = (inr (api_key, api_secret, passphrase), w'))
  ∧ (∀ u d, ed_id d ≠ added.1 →
            d ∈ get_user_exchanges added.2 u ↔ d ∈ get_user_exchanges st u).
Proof.
  intros Henc added.
  pose proof (next_rowid_fresh (exchanges st)) as Hfresh.
  unfold encrypt_credentials, try_catch in Henc. cbn [mret M_ret fst] in Henc.
  injection Henc as <-.
  cbn [fst snd] in added. split; [exact Hfresh|]. split.
  - eexists (exchange_dict (added.1, _)). split.
    { apply elem_of_get_user_exchanges. eexists added.1, _.
      split; [apply lookup_insert_eq|]. by split. }
    do 3 (split; [reflexivity|]). intros w'.
    cbn [exchange_dict fst snd ed_api_key_encrypted ed_api_secret_encrypted
         ed_passphrase_encrypted ex_api_key_encrypted ex_api_secret_encrypted
         ex_passphrase_encrypted].
    unfold decrypt_credentials, try_catch, mbind, M_bind, fernet_decrypt.
    rewrite !decrypt_encrypt. cbn [mret M_ret].
    destruct passphrase as [|c passphrase]; [reflexivity|].
    cbn [truthy_str]. pose proof (encrypt_nonempty ivs.2 (String c passphrase)) as Hne.
    destruct (encrypt ivs.2 (String c passphrase)) as [|c' token] eqn:E; [done|].
    cbn [truthy_str default from_option]. unfold id.
    by rewrite <- E, decrypt_encrypt.
  - intros u d Hid. rewrite !elem_of_get_user_exchanges.
    split; intros (i & e & Hin & Hu & Ha & ->); cbn [exchange_dict ed_id fst] in Hid;
      exists i, e; (split; [|done]).
    + unfold added, ExchangeModel.add_exchange in Hin.
      cbn [snd ExchangeModel.set_exchanges exchanges] in Hin.
      by rewrite lookup_insert_ne in Hin.
    + unfold added, ExchangeModel.add_exchange.
      cbn [snd ExchangeModel.set_exchanges exchanges].
      by rewrite lookup_insert_ne.
Qed.

Lemma stored_credentials_come_back_witness :
  ∃ d, d ∈ get_user_exchanges
             (ExchangeModel.add_exchange 1 "okx" "gkey" "gsecret" "gphrase" "manual" 10
                Scenario.three_users).2 1
       ∧ ed_id d = 4%Z.
Proof.
  destruct (@stored_credentials_come_back Scenario.toy_fernet (1, 2, 3)%Z "key" "secret"
              "phrase" 1 "okx" "manual" 10 Scenario.three_users
              (world_of Scenario.three_users) ("gkey", "gsecret", "gphrase") eq_refl)
    as (_ & (d & Hin & Hid & _) & _).
  by exists d.
Defined.

(** ** The recording variant *)

Lemma only_adds_trades_refl st : only_adds_trades st st.
Proof. done. Qed.

Lemma only_adds_trades_trans a b c :
  only_adds_trades a b → only_adds_trades b c → only_adds_trades a c.
Proof.
  intros (Hu & Hs & He & Hg & Ht) (Hu' & Hs' & He' & Hg' & Ht').
  repeat split; try congruence. by etrans.
Qed.

Lemma keeps_preserved {A} (m : M A) : preserves_store m → keeps only_adds_trades m.
Proof. intros Hm w. rewrite Hm. apply only_adds_trades_refl. Qed.

Lemma keeps_modify (f : Store → Store) :
  (∀ st, only_adds_trades st (f st)) → keeps only_adds_trades (modify f).
Proof. intros Hf w. apply Hf. Qed.

Lemma keeps_bind {A B} (m : M A) (k : A → M B) :
  keeps only_adds_trades m → (∀ a, keeps only_adds_trades (k a)) →
  keeps only_adds_trades (m ≫= k).
Proof.
  intros Hm Hk w. unfold mbind, M_bind. specialize (Hm w).
  destruct (m w) as [[e|a] w']; cbn [snd] in *; [done|].
  eapply only_adds_trades_trans; [exact Hm|apply Hk].
Qed.

Lemma keeps_try {A} (body : M A) (handler : Exc → M A) :
  keeps only_adds_trades body → (∀ e, keeps only_adds_trades (handler e)) →
  keeps only_adds_trades (try_catch body handler).
Proof.
  intros Hm Hk w. unfold try_catch. specialize (Hm w).
  destruct (body w) as [[e|a] w']; cbn [snd] in *; [|done].
  eapply only_adds_trades_trans; [exact Hm|apply Hk].
Qed.

Lemma keeps_for_each {A} (l : list A) (body : A → M ()) :
  (∀ a, keeps only_adds_trades (body a)) → keeps only_adds_trades (for_each l body).
Proof.
  intros Hbody. induction l as [|a l IH]; cbn [for_each].
  - apply keeps_preserved, preserves_ret.
  - apply keeps_bind; [apply Hbody|by intros _].
Qed.

Lemma create_trade_only_adds now user_id exchange_id signal_id symbol action entry_price
    quantity stop_loss take_profit leverage st :
  only_adds_trades st
    (create_trade now user_id exchange_id signal_id symbol action entry_price quantity
       stop_loss take_profit leverage st).
Proof.
  unfold create_trade. destruct (exchanges st !! exchange_id) as [e|]; [|done].
  repeat split. cbn [set_trades trade_executions].
  apply insert_subseteq, next_rowid_fresh.
Qed.

(** [AutoTrader.execute_signal_trade] returns for every user, signal,
    vault and venue behaviour, and all it does to the store is add
    positions: the users, subscriptions, exchanges and signals are as
    before, and every position that was stored is still stored, unchanged.
    In particular it does not mark the signal. *)
Theorem recording_variant_only_adds_positions `{Fernet} cx now user signal :
  never_raises (AutoTrader.execute_signal_trade cx now user signal)
  ∧ keeps only_adds_trades (AutoTrader.execute_signal_trade cx now user signal).
Proof.
  split.
  - apply never_raises_try. intros e w. by exists ().
  - unfold AutoTrader.execute_signal_trade.
    apply keeps_try; [|intros e; apply keeps_preserved, preserves_emit].
    apply keeps_bind; [apply keeps_preserved, preserves_gets|].
    intros user_exchanges. apply keeps_for_each. intros exchange.
    destruct (negb _); [apply keeps_preserved, preserves_ret|].
    apply keeps_bind; [apply keeps_preserved, execute_trade_preserves|].
    intros [order_id entry_price quantity side|e];
      [|apply keeps_preserved, preserves_ret].
    apply keeps_bind; [|intros _; apply keeps_preserved, preserves_emit].
    apply keeps_modify. intros st. apply create_trade_only_adds.
Qed.

(** ** A second cycle at the same prices *)




